(** * novel-manager: the batch translation worker and its manager

    A shallow embedding of [src/logic/translation_manager.py]:
    [TranslationWorker] ([run], [_translate_single_file], [stop]) and
    [TranslationManager] ([initialize], [translate_files],
    [stop_translation], ...).

    Python [str] values are byte strings (UTF-8), [Optional[T]] is [option T],
    a [Dict[str, str]] is a [gmap string string].  An exception is represented
    by its message [str(e)], the only part of it the handlers look at, and by
    whether [except Exception] catches it.  Files are read and written as on
    POSIX. *)

From Stdlib Require Import Ascii String.
From stdpp Require Import base strings gmap list pretty.

Local Open Scope string_scope.
Local Open Scope list_scope.
Local Open Scope nat_scope.

(** ** Results of fallible calls *)

(** [Raise e]: an instance of [Exception] was raised; [Abort e]: a
    [BaseException] that is no [Exception] ([KeyboardInterrupt], [SystemExit],
    [GeneratorExit], [asyncio.CancelledError]), which [except Exception] lets
    through. *)
Inductive Res (A : Type) : Type :=
| Ret (a : A)
| Raise (e : string)
| Abort (e : string).
Arguments Ret {A} a.
Arguments Raise {A} e.
Arguments Abort {A} e.

(** ** The four Qt signals of both classes *)

Inductive Signal : Type :=
| progress_updated (message : string)
| translation_completed (filename : string) (success : bool)
| all_translations_completed
| error_occurred (message : string).

(** ** What a run does to the outside, in the order it does it *)

Inductive Effect : Type :=
| Emit (sig : Signal)
| Sleep (seconds : nat)
| TranslateText (text source_lang target_lang api_key : string)
    (provider model : option string) (custom_terms : string)
| FsWrite (path content : string)
| FsReplace (source target : string)
| FsRemove (path : string)
| ThreadStart.

Definition signal_of (e : Effect) : option Signal :=
  match e with Emit sig => Some sig | _ => None end.

(** The signals of a trace, in emission order. *)
Definition signals (tr : list Effect) : list Signal := omap signal_of tr.

Definition is_completed (e : Effect) : bool :=
  match e with Emit all_translations_completed => true | _ => false end.

(** How often [all_translations_completed] was emitted. *)
Definition count_completed (tr : list Effect) : nat :=
  length (filter (λ e, is_completed e = true) tr).

Definition is_sleep (e : Effect) : bool :=
  match e with Sleep _ => true | _ => false end.

(** ** The file system, as far as the worker touches it: regular files by path *)

Definition fs_apply (files : gmap string string) (e : Effect) : gmap string string :=
  match e with
  | FsWrite path content => <[path := content]> files
  | FsReplace source target =>
      match files !! source with
      | Some content => <[target := content]> (delete source files)
      | None => files
      end
  | FsRemove path => delete path files
  | _ => files
  end.

(** The files after the effects of [tr] took place, one after the other. *)
Definition fs_after (tr : list Effect) (files : gmap string string) : gmap string string :=
  foldl fs_apply files tr.

(** ** [os.path.join] (posixpath), two components *)

Fixpoint endswith_sep (s : string) : bool :=
  match s with
  | EmptyString => false
  | String c EmptyString => bool_decide (c = "/"%char)
  | String _ s' => endswith_sep s'
  end.

Definition os_path_join (a b : string) : string :=
  if String.prefix "/" b then b
  else if bool_decide (a = "") || endswith_sep a then a +:+ b
  else a +:+ "/" +:+ b.

(** ** The record store interface ([TranslationDatabase], imported from
    [.database]); every call may raise. *)

Class RecordStore (DB : Type) : Type := {
  is_file_translated : DB → string → Res bool;
  add_translation_record : DB → string → string → string → Res DB;
  save_custom_terms : DB → string → Res DB;
  get_custom_terms : DB → Res string;
}.

(** ** The environment of one run *)

(** What [translate_text] of the translator does on one call. *)
Inductive TOutcome : Type :=
| TReturn (translated_text : option string)
| TRaise (e : string)
| TAbort (e : string).

(** The outside of one [_translate_single_file] call: I/O faults and the
    translator.  [read_fault]: [open]/[read] raises although the file is
    there; [write_fault]: writing the temporary file raises, leaving the
    given partial file (or none) behind; [no_file_error path]: the text of the
    [OSError] of a call on [path] when there is no regular file at [path].
    The file system calls raise [OSError] or [UnicodeError], which are
    instances of [Exception]. *)
Record IOOracle : Type := {
  read_fault : option string;
  no_file_error : string → string;
  translate_text : option Z → string → string → string → string →
                   option string → option string → string → TOutcome;
  write_fault : option (option string * string);
  replace_fault : option string;
  remove_fault : option string;
}.

(** Where the worker is while the caller's thread calls [stop]:
    [Before i] is the time up to the test at the top of iteration [i]
    (the pause after file [i-1] included), [During i] the time from that test
    to the end of iteration [i], [AfterLoop] the time between the loop and the
    test of line 72. *)
Inductive Phase : Type :=
| Before (i : nat)
| During (i : nat)
| AfterLoop.

Record Env : Type := {
  stop_called : Phase → bool;
  io : nat → IOOracle;
}.

Module Worker.
Section defs.
Context {DB : Type} `{RecordStore DB}.

(** The fields of a [TranslationWorker] that never change after [__init__]. *)
Record TranslationWorker : Type := {
  files_to_translate : list (gmap string string);
  working_directory : string;
  source_lang : string;
  target_lang : string;
  api_key : string;
  provider : option string;
  model : option string;
  custom_terms : string;
  segment_size : option Z;
}.

(** The mutable state a run works on: the directory, the record store
    [self.db], the shared translator's [segment_size] and the worker's
    [_stop_requested] flag. *)
Record World : Type := mkWorld {
  fs : gmap string string;
  db : DB;
  translator_segment_size : option Z;
  _stop_requested : bool;
}.

Definition set_fs (f : gmap string string → gmap string string) (s : World) : World :=
  mkWorld (f (fs s)) (db s) (translator_segment_size s) (_stop_requested s).
Definition set_db (d : DB) (s : World) : World :=
  mkWorld (fs s) d (translator_segment_size s) (_stop_requested s).
Definition set_translator_segment_size (z : option Z) (s : World) : World :=
  mkWorld (fs s) (db s) z (_stop_requested s).
Definition set_stop_requested (b : bool) (s : World) : World :=
  mkWorld (fs s) (db s) (translator_segment_size s) b.

(** *** State, exceptions and the trace of effects *)

Definition M (A : Type) : Type := World → Res A * World * list Effect.

Definition ret {A} (a : A) : M A := λ s, (Ret a, s, []).
Definition raise {A} (e : string) : M A := λ s, (Raise e, s, []).
Definition abort {A} (e : string) : M A := λ s, (Abort e, s, []).

Definition bind {A B} (m : M A) (k : A → M B) : M B := λ s,
  match m s with
  | (Ret a, s1, tr1) => let '(r, s2, tr2) := k a s1 in (r, s2, tr1 ++ tr2)
  | (Raise e, s1, tr1) => (Raise e, s1, tr1)
  | (Abort e, s1, tr1) => (Abort e, s1, tr1)
  end.

(** [try: m except Exception as e: h e]; what is no [Exception] goes through. *)
Definition try_except {A} (m : M A) (h : string → M A) : M A := λ s,
  match m s with
  | (Ret a, s1, tr1) => (Ret a, s1, tr1)
  | (Raise e, s1, tr1) => let '(r, s2, tr2) := h e s1 in (r, s2, tr1 ++ tr2)
  | (Abort e, s1, tr1) => (Abort e, s1, tr1)
  end.

(** [try: m except: h] (a bare [except], line 121): catches everything. *)
Definition try_except_all {A} (m : M A) (h : M A) : M A := λ s,
  match m s with
  | (Ret a, s1, tr1) => (Ret a, s1, tr1)
  | (Raise _, s1, tr1) | (Abort _, s1, tr1) =>
      let '(r, s2, tr2) := h s1 in (r, s2, tr1 ++ tr2)
  end.

(** [try: m finally: f] *)
Definition try_finally {A} (m : M A) (f : M unit) : M A := λ s,
  let '(r, s1, tr1) := m s in
  match f s1 with
  | (Ret _, s2, tr2) => (r, s2, tr1 ++ tr2)
  | (Raise e, s2, tr2) => (Raise e, s2, tr1 ++ tr2)
  | (Abort e, s2, tr2) => (Abort e, s2, tr1 ++ tr2)
  end.

Definition effect (e : Effect) : M unit := λ s, (Ret tt, s, [e]).
Definition emit (sig : Signal) : M unit := effect (Emit sig).
Definition sleep (seconds : nat) : M unit := effect (Sleep seconds).
Definition get {A} (f : World → A) : M A := λ s, (Ret (f s), s, []).
Definition modify (f : World → World) : M unit := λ s, (Ret tt, f s, []).
Definition lift {A} (f : World → Res A) : M A := λ s, (f s, s, []).


Notation "'do' x <- m ; k" := (bind m (λ x, k))
  (at level 10, x name, m at level 100, k at level 200).
Notation "'exec' m ; k" := (bind m (λ _, k))
  (at level 10, m at level 100, k at level 200).

(** *** The file system calls of [_translate_single_file] *)

(** What [file.read()] returns for a file opened in text mode with the
    default [newline=None]: every [\r\n] and every other [\r] of the content
    is read as [\n]. *)
Fixpoint universal_newlines (content : string) : string :=
  match content with
  | EmptyString => EmptyString
  | String c rest =>
      if bool_decide (c = "013"%char) then
        match rest with
        | String c' rest' =>
            if bool_decide (c' = "010"%char)
            then String "010"%char (universal_newlines rest')
            else String "010"%char (universal_newlines rest)
        | EmptyString => String "010"%char EmptyString
        end
      else String c (universal_newlines rest)
  end.

(** A change of the directory, recorded in the trace. *)
Definition fs_effect (e : Effect) : M unit := λ s,
  (Ret tt, set_fs (λ files, fs_apply files e) s, [e]).

(** [with open(path, 'r', encoding='utf-8') as file: text = file.read()] *)
Definition read_file (o : IOOracle) (path : string) : M string :=
  match read_fault o with
  | Some e => raise e
  | None =>
      do content <- get (λ s, fs s !! path);
      match content with
      | Some text => ret (universal_newlines text)
      | None => raise (no_file_error o path)
      end
  end.

(** [with open(path, 'w', encoding='utf-8') as file: file.write(content)];
    [\n] is written as [os.linesep], which is [\n]. *)
Definition write_file (o : IOOracle) (path content : string) : M unit :=
  match write_fault o with
  | Some (Some partial, e) => exec fs_effect (FsWrite path partial); raise e
  | Some (None, e) => raise e
  | None => fs_effect (FsWrite path content)
  end.

(** [os.replace(source, target)] *)
Definition os_replace (o : IOOracle) (source target : string) : M unit :=
  match replace_fault o with
  | Some e => raise e
  | None =>
      do content <- get (λ s, fs s !! source);
      match content with
      | Some _ => fs_effect (FsReplace source target)
      | None => raise (no_file_error o source)
      end
  end.

(** [os.path.exists(path)] *)
Definition os_path_exists (path : string) : M bool :=
  get (λ s, bool_decide (is_Some (fs s !! path))).

(** [os.remove(path)] *)
Definition os_remove (o : IOOracle) (path : string) : M unit :=
  match remove_fault o with
  | Some e => raise e
  | None =>
      do content <- get (λ s, fs s !! path);
      match content with
      | Some _ => fs_effect (FsRemove path)
      | None => raise (no_file_error o path)
      end
  end.

(** [self.translator.translate_text(...)]: the call is recorded, its outcome
    is the environment's and may depend on the translator's [segment_size]. *)
Definition translator_translate_text (o : IOOracle)
    (text source target key : string) (prov mdl : option string) (terms : string)
  : M (option string) :=
  exec effect (TranslateText text source target key prov mdl terms);
  do seg <- get translator_segment_size;
  match translate_text o seg text source target key prov mdl terms with
  | TReturn translated_text => ret translated_text
  | TRaise e => raise e
  | TAbort e => abort e
  end.

(** *** [TranslationWorker._translate_single_file] (lines 83-123) *)

Definition input_path_of (self : TranslationWorker) (filename : string) : string :=
  os_path_join (working_directory self) filename.

Definition temp_output_path_of (self : TranslationWorker) (filename : string) : string :=
  os_path_join (working_directory self) (".temp_" +:+ filename).

(** The [except Exception as e] block, lines 115-123. *)
Definition translate_handler (o : IOOracle) (filename temp_output_path e : string) : M bool :=
  exec emit (error_occurred ("Error al traducir " +:+ filename +:+ ": " +:+ e));
  do temp_exists <- os_path_exists temp_output_path;
  exec (if temp_exists
        then try_except_all (os_remove o temp_output_path) (ret tt)
        else ret tt);
  ret false.

Definition _translate_single_file (self : TranslationWorker) (o : IOOracle)
    (filename : string) : M bool :=
  let input_path := input_path_of self filename in
  let temp_output_path := temp_output_path_of self filename in
  try_except
    (do text <- read_file o input_path;
     do translated_text <-
       translator_translate_text o text (source_lang self) (target_lang self)
         (api_key self) (provider self) (model self) (custom_terms self);
     match translated_text with
     | None | Some EmptyString =>
         exec emit (error_occurred
                      ("Error al traducir " +:+ filename +:+ ": No se obtuvo traducción"));
         ret false
     | Some translated =>
         exec write_file o temp_output_path translated;
         exec os_replace o temp_output_path input_path;
         ret true
     end)
    (translate_handler o filename temp_output_path).

(** *** [TranslationWorker.run] (lines 38-81) *)

Definition progress_message (i total_files : nat) (filename : string) : string :=
  "Traduciendo capítulo " +:+ pretty i +:+ " de " +:+ pretty total_files
    +:+ ": " +:+ filename.

Definition final_message (successful_translations total_files : nat) : string :=
  "Traducción completada. " +:+ pretty successful_translations +:+ " de "
    +:+ pretty total_files +:+ " archivos traducidos exitosamente.".

(** [d[key]]; a missing key raises [KeyError(key)]. *)
Definition getitem (d : gmap string string) (key : string) : M string :=
  match d !! key with
  | Some v => ret v
  | None => raise ("'" +:+ key +:+ "'")
  end.

(** The caller's thread called [stop] while the worker was in phase [p]. *)
Definition stop_hook (env : Env) (p : Phase) : M unit :=
  modify (λ s, set_stop_requested (_stop_requested s || stop_called env p) s).

(** How one iteration of the [for] loop ends. *)
Inductive Ctl : Type :=
| Break
| Next (successful_translations : nat).

(** The body of the loop, lines 48-70, for file number [i] (from 1). *)
Definition body (self : TranslationWorker) (env : Env) (total_files i : nat)
    (file_info : gmap string string) (successful_translations : nat) : M Ctl :=
  exec stop_hook env (Before i);
  do stop_requested <- get _stop_requested;
  if stop_requested then ret Break
  else
    do filename <- getitem file_info "name";
    exec emit (progress_updated (progress_message i total_files filename));
    do translated <- lift (λ s, is_file_translated (db s) filename);
    if translated then
      exec stop_hook env (During i);
      ret (Next successful_translations)
    else
      do success <- _translate_single_file self (io env i) filename;
      do successful <-
        (if success then
           do db' <- lift (λ s, add_translation_record (db s) filename
                                  (source_lang self) (target_lang self));
           exec modify (set_db db');
           exec emit (translation_completed filename true);
           ret (S successful_translations)
         else
           exec emit (translation_completed filename false);
           ret successful_translations);
      exec stop_hook env (During i);
      do stop_requested <- get _stop_requested;
      exec (if (i <? total_files)%nat && negb stop_requested then sleep 5 else ret tt);
      ret (Next successful).

(** [for i, file_info in enumerate(files, i): ...], returning the counter. *)
Fixpoint loop (self : TranslationWorker) (env : Env) (total_files i : nat)
    (files : list (gmap string string)) (successful_translations : nat) : M nat :=
  match files with
  | [] => ret successful_translations
  | file_info :: rest =>
      do ctl <- body self env total_files i file_info successful_translations;
      match ctl with
      | Break => ret successful_translations
      | Next successful => loop self env total_files (S i) rest successful
      end
  end.

(** The [try] block, lines 40-76. *)
Definition run_try (self : TranslationWorker) (env : Env) : M unit :=
  let total_files := length (files_to_translate self) in
  exec (match segment_size self with
        | Some _ => modify (set_translator_segment_size (segment_size self))
        | None => ret tt
        end);
  do successful_translations <-
    loop self env total_files 1 (files_to_translate self) 0;
  exec stop_hook env AfterLoop;
  do stop_requested <- get _stop_requested;
  if negb stop_requested then
    exec emit (progress_updated (final_message successful_translations total_files));
    emit all_translations_completed
  else ret tt.

Definition run (self : TranslationWorker) (env : Env) : M unit :=
  try_finally
    (try_except (run_try self env)
       (λ e, emit (error_occurred ("Error en el proceso de traducción: " +:+ e))))
    (emit all_translations_completed).

(** *** [TranslationWorker.__init__] (lines 14-33) and [stop] *)

Definition __init__ (files : list (gmap string string)) (directory : string)
    (source target key : string) (prov mdl : option string) (terms : string)
    (seg : option Z) : M TranslationWorker :=
  exec modify (set_stop_requested false);
  exec modify (set_translator_segment_size seg);
  ret {| files_to_translate := files; working_directory := directory;
         source_lang := source; target_lang := target; api_key := key;
         provider := prov; model := mdl; custom_terms := terms;
         segment_size := seg |}.

Definition stop : M unit := modify (set_stop_requested true).

End defs.
Arguments World : clear implicits.
Arguments M : clear implicits.
End Worker.

Module Manager.
Section defs.
Context {DB : Type} `{RecordStore DB}.

(** The state of a [TranslationManager]: its own fields, the [segment_size]
    of the translator it owns, and of the worker it started the fields and
    the [_stop_requested] flag. *)
Record TranslationManager : Type := {
  translator_segment_size : option Z;
  db : option DB;
  working_directory : option string;
  current_provider : option string;
  current_model : option string;
  worker : option Worker.TranslationWorker;
  worker_stop_requested : bool;
  status_callback_connected : bool;
}.

(** [__init__] (lines 132-140): [TranslatorLogic(segment_size=None)], nothing bound. *)
Definition __init__ : TranslationManager :=
  {| translator_segment_size := None; db := None; working_directory := None;
     current_provider := None; current_model := None; worker := None;
     worker_stop_requested := false; status_callback_connected := false |}.

(** [initialize] (lines 142-154); [opened] is what [TranslationDatabase(directory)]
    does, a new store or an exception. *)
Definition initialize (self : TranslationManager) (directory : string)
    (prov mdl : option string) (opened : Res DB) : Res unit * TranslationManager :=
  match opened with
  | Raise e =>
      (Raise e,
       {| translator_segment_size := translator_segment_size self;
          db := db self; working_directory := Some directory;
          current_provider := current_provider self;
          current_model := current_model self; worker := worker self;
          worker_stop_requested := worker_stop_requested self;
          status_callback_connected := status_callback_connected self |})
  | Abort e =>
      (Abort e,
       {| translator_segment_size := translator_segment_size self;
          db := db self; working_directory := Some directory;
          current_provider := current_provider self;
          current_model := current_model self; worker := worker self;
          worker_stop_requested := worker_stop_requested self;
          status_callback_connected := status_callback_connected self |})
  | Ret d =>
      (Ret tt,
       {| translator_segment_size := translator_segment_size self;
          db := Some d; working_directory := Some directory;
          current_provider := prov; current_model := mdl; worker := worker self;
          worker_stop_requested := worker_stop_requested self;
          status_callback_connected := status_callback_connected self |})
  end.

(** [str.isspace] for the characters of one byte: U+0009 to U+000D, U+001C
    to U+001F and U+0020. *)
Definition isspace (c : ascii) : bool :=
  let n := nat_of_ascii c in
  ((9 <=? n)%nat && (n <=? 13)%nat) || ((28 <=? n)%nat && (n <=? 32)%nat).

(** [str.isspace] for the characters of two bytes: U+0085 and U+00A0. *)
Definition isspace2 (c1 c2 : ascii) : bool :=
  (nat_of_ascii c1 =? 194)%nat
  && ((nat_of_ascii c2 =? 133)%nat || (nat_of_ascii c2 =? 160)%nat).

(** [str.isspace] for the characters of three bytes: U+1680, U+2000 to U+200A,
    U+2028, U+2029, U+202F, U+205F and U+3000. *)
Definition isspace3 (c1 c2 c3 : ascii) : bool :=
  let n1 := nat_of_ascii c1 in
  let n2 := nat_of_ascii c2 in
  let n3 := nat_of_ascii c3 in
  ((n1 =? 225)%nat && (n2 =? 154)%nat && (n3 =? 128)%nat)
  || ((n1 =? 226)%nat && (n2 =? 128)%nat
      && (((128 <=? n3)%nat && (n3 <=? 138)%nat)
          || (n3 =? 168)%nat || (n3 =? 169)%nat || (n3 =? 175)%nat))
  || ((n1 =? 226)%nat && (n2 =? 129)%nat && (n3 =? 159)%nat)
  || ((n1 =? 227)%nat && (n2 =? 128)%nat && (n3 =? 128)%nat).

(** The truth value of [s.strip()]: some character of [s] is not white
    space.  The characters are read off the UTF-8 bytes; no white space has
    four bytes. *)
Fixpoint strip_truthy (s : string) : bool :=
  match s with
  | EmptyString => false
  | String c1 s1 =>
      if isspace c1 then strip_truthy s1
      else
        match s1 with
        | String c2 s2 =>
            if isspace2 c1 c2 then strip_truthy s2
            else
              match s2 with
              | String c3 s3 =>
                  if isspace3 c1 c2 c3 then strip_truthy s3 else true
              | EmptyString => true
              end
        | EmptyString => true
        end
  end.

Definition not_initialized_message : string :=
  "No se ha inicializado el directorio de trabajo".

(** [translate_files] (lines 156-218).  The thread it starts runs
    [Worker.run] on the new worker, see [worker_world]. *)
Definition translate_files (self : TranslationManager)
    (files : list (gmap string string)) (source target key : string)
    (status_callback : bool) (terms : string) (seg : option Z)
  : Res unit * TranslationManager * list Effect :=
  match working_directory self, db self with
  | Some directory, Some d =>
      if bool_decide (directory = "") then
        (Ret tt, self, [Emit (error_occurred not_initialized_message)])
      else
        match (if strip_truthy terms then save_custom_terms d terms else Ret d) with
        | Raise e => (Raise e, self, [])
        | Abort e => (Abort e, self, [])
        | Ret d' =>
            (Ret tt,
             {| translator_segment_size := seg;
                db := Some d'; working_directory := working_directory self;
                current_provider := current_provider self;
                current_model := current_model self;
                worker := Some
                  {| Worker.files_to_translate := files;
                     Worker.working_directory := directory;
                     Worker.source_lang := source; Worker.target_lang := target;
                     Worker.api_key := key;
                     Worker.provider := current_provider self;
                     Worker.model := current_model self;
                     Worker.custom_terms := terms;
                     Worker.segment_size := seg |};
                worker_stop_requested := false;
                status_callback_connected := status_callback |},
             [ThreadStart])
        end
  | _, _ => (Ret tt, self, [Emit (error_occurred not_initialized_message)])
  end.

(** The state the started thread runs the worker on, given the directory. *)
Definition worker_world (self : TranslationManager) (files : gmap string string)
  : option (Worker.World DB) :=
  match db self with
  | Some d =>
      Some (Worker.mkWorld files d (translator_segment_size self)
              (worker_stop_requested self))
  | None => None
  end.

(** [stop_translation] (lines 220-224) *)
Definition stop_translation (self : TranslationManager)
  : TranslationManager * list Effect :=
  match worker self with
  | Some _ =>
      ({| translator_segment_size := translator_segment_size self;
          db := db self; working_directory := working_directory self;
          current_provider := current_provider self;
          current_model := current_model self; worker := worker self;
          worker_stop_requested := true;
          status_callback_connected := status_callback_connected self |},
       [Emit (progress_updated "Deteniendo traducción...")])
  | None => (self, [])
  end.

(** [get_custom_terms] (lines 230-234) *)
Definition get_custom_terms (self : TranslationManager) : Res string :=
  match db self with
  | Some d => get_custom_terms d
  | None => Ret ""
  end.

End defs.
Arguments TranslationManager : clear implicits.
End Manager.

(** ** The record store *)

Module Store.

Record TranslationRecord : Type := {
  filename : string;
  source_lang : string;
  target_lang : string;
  timestamp : nat;
}.

Record TranslationDatabase : Type := {
  records : list TranslationRecord;
  custom_terms : string;
}.

(** Modelled from the spec: [isTranslated] of the record store (the class
    [TranslationDatabase] of [logic/database.py] is not part of the sources).
    "Existence of a record for a filename means already translated"; the
    language pair is not looked at. *)
Definition is_translated (d : TranslationDatabase) (name : string) : bool :=
  existsb (λ r, String.eqb (filename r) name) (records d).

(** Modelled from the spec: [addRecord] of the record store, which persists
    [{ filename, sourceLang, targetLang, timestamp }]; the time is the number
    of records written before. *)
Definition add_record (d : TranslationDatabase) (name source target : string)
  : TranslationDatabase :=
  {| records := records d ++
       [{| filename := name; source_lang := source; target_lang := target;
           timestamp := length (records d) |}];
     custom_terms := custom_terms d |}.

(** Modelled from the spec: [saveCustomTerms] of the record store, an opaque
    glossary string persisted independently of any batch. *)
Definition save_terms (d : TranslationDatabase) (terms : string) : TranslationDatabase :=
  {| records := records d; custom_terms := terms |}.

(** Modelled from the spec: the record store of section 6 as an instance of the
    interface the worker calls; none of its calls raises. *)
#[global] Instance list_store : RecordStore TranslationDatabase := {|
  is_file_translated d name := Ret (is_translated d name);
  add_translation_record d name source target := Ret (add_record d name source target);
  save_custom_terms d terms := Ret (save_terms d terms);
  get_custom_terms d := Ret (custom_terms d);
|}.

Definition empty : TranslationDatabase := {| records := []; custom_terms := "" |}.

End Store.

(** ** Concrete batches, used to run the model *)

Module Examples.

Definition file (name : string) : gmap string string := {[ "name" := name ]}.

(** The text of [FileNotFoundError] for a path that [repr] puts in single
    quotes. *)
Definition errno2 (path : string) : string :=
  "[Errno 2] No such file or directory: '" +:+ path +:+ "'".

(** A translator that answers every text with the same text in brackets. *)
Definition bracket_translator (seg : option Z) (text source target key : string)
    (prov mdl : option string) (terms : string) : TOutcome :=
  TReturn (Some ("[" +:+ text +:+ "]")).

(** A translator that answers with the empty string. *)
Definition empty_translator (seg : option Z) (text source target key : string)
    (prov mdl : option string) (terms : string) : TOutcome :=
  TReturn (Some "").

Definition oracle (translator : option Z → string → string → string → string →
                                option string → option string → string → TOutcome)
  : IOOracle :=
  {| read_fault := None; no_file_error := errno2; translate_text := translator;
     write_fault := None; replace_fault := None; remove_fault := None |}.

(** Nobody calls [stop], no I/O fault, the bracket translator. *)
Definition quiet : Env :=
  {| stop_called := λ _, false; io := λ _, oracle bracket_translator |}.

(** As [quiet], but [stop] is called while file 1 is being processed. *)
Definition stop_during_1 : Env :=
  {| stop_called := λ p, match p with During 1 => true | _ => false end;
     io := λ _, oracle bracket_translator |}.

(** As [quiet], but the translator returns the empty string. *)
Definition silent : Env :=
  {| stop_called := λ _, false; io := λ _, oracle empty_translator |}.

Definition worker (names : list string) (seg : option Z) : Worker.TranslationWorker :=
  {| Worker.files_to_translate := file <$> names;
     Worker.working_directory := "/novel";
     Worker.source_lang := "es"; Worker.target_lang := "en";
     Worker.api_key := "key"; Worker.provider := None; Worker.model := None;
     Worker.custom_terms := ""; Worker.segment_size := seg |}.

Definition directory : gmap string string :=
  {[ "/novel/a.txt" := "uno"; "/novel/b.txt" := "dos" ]}.

Definition world (d : Store.TranslationDatabase) : Worker.World Store.TranslationDatabase :=
  Worker.mkWorld directory d None false.

(** A store in which [a.txt] is recorded, for the pair (en, fr). *)
Definition a_done : Store.TranslationDatabase :=
  Store.add_record Store.empty "a.txt" "en" "fr".

(** A directory in which a translator setting of 5000 characters is left
    over from an earlier batch. *)
Definition world_5000 : Worker.World Store.TranslationDatabase :=
  Worker.mkWorld directory Store.empty (Some 5000%Z) false.

(** The attempt on [a.txt] with the bracket translator. *)
Definition attempt_a
  : Res bool * Worker.World Store.TranslationDatabase * list Effect :=
  Worker._translate_single_file (worker ["a.txt"] None)
    (oracle bracket_translator) "a.txt" (world Store.empty).

(** The first iteration of a batch of two, nothing recorded yet. *)
Definition first_of_two
  : Res Worker.Ctl * Worker.World Store.TranslationDatabase * list Effect :=
  Worker.body (worker ["a.txt"; "b.txt"] None) quiet 2 1 (file "a.txt") 0
    (world Store.empty).

(** The batch of two with [stop] called while file 1 is processed. *)
Definition stopped_run
  : Res unit * Worker.World Store.TranslationDatabase * list Effect :=
  Worker.run (worker ["a.txt"; "b.txt"] None) stop_during_1 (world Store.empty).

(** The batch of two with [a.txt] already recorded. *)
Definition resumed_run
  : Res unit * Worker.World Store.TranslationDatabase * list Effect :=
  Worker.run (worker ["a.txt"; "b.txt"] None) quiet (world a_done).

(** The write of the temporary file fails half way. *)
Definition disk_full : IOOracle :=
  {| read_fault := None; no_file_error := errno2;
     translate_text := bracket_translator;
     write_fault := Some (Some "[u", "[Errno 28] No space left on device");
     replace_fault := None; remove_fault := None |}.

(** The record store of the spec, except that writing a record raises. *)
Definition read_only_store : RecordStore Store.TranslationDatabase :=
  {| is_file_translated d name := Ret (Store.is_translated d name);
     add_translation_record d name source target :=
       Raise "attempt to write a readonly database";
     save_custom_terms d terms := Raise "attempt to write a readonly database";
     get_custom_terms d := Ret (Store.custom_terms d) |}.

(** A directory in which a temporary file is left over and [c.txt] is
    missing. *)
Definition stale_world : Worker.World Store.TranslationDatabase :=
  Worker.mkWorld {[ "/novel/.temp_c.txt" := "viejo" ]} Store.empty None false.

(** A batch whose second entry has no key [name]. *)
Definition nameless_worker : Worker.TranslationWorker :=
  {| Worker.files_to_translate := [file "a.txt"; ∅];
     Worker.working_directory := "/novel";
     Worker.source_lang := "es"; Worker.target_lang := "en";
     Worker.api_key := "key"; Worker.provider := None; Worker.model := None;
     Worker.custom_terms := ""; Worker.segment_size := None |}.

(** What the loop of that batch does for its first entry. *)
Definition nameless_prefix
  : Res nat * Worker.World Store.TranslationDatabase * list Effect :=
  Worker.loop nameless_worker quiet 2 1 [file "a.txt"] 0 (world Store.empty).

(** A translator that leaves by [sys.exit(1)]: the call raises
    [SystemExit(1)], which is no [Exception]. *)
Definition exiting_translator (seg : option Z) (text source target key : string)
    (prov mdl : option string) (terms : string) : TOutcome :=
  TAbort "1".

(** As [quiet], but with the translator that exits. *)
Definition exiting : Env :=
  {| stop_called := λ _, false; io := λ _, oracle exiting_translator |}.

(** The batch of two with the translator that exits. *)
Definition exited_run
  : Res unit * Worker.World Store.TranslationDatabase * list Effect :=
  Worker.run (worker ["a.txt"; "b.txt"] None) exiting (world Store.empty).

(** Custom terms of white space only: U+3000 (ideographic space), U+00A0
    (no-break space) and a space, in UTF-8. *)
Definition blank_terms : string :=
  String "227" (String "128" (String "128" (String "194" (String "160" " ")))).

(** A manager bound to [/novel] with provider and model chosen. *)
Definition bound_manager : Manager.TranslationManager Store.TranslationDatabase :=
  (Manager.initialize Manager.__init__ "/novel" (Some "gemini") (Some "flash")
     (Ret Store.empty)).2.

End Examples.

(** ** Vocabulary of the statements *)

Section vocabulary.
Context {DB : Type} `{RecordStore DB}.
Import Worker.

(** The effects [_translate_single_file] can have: error signals, the
    translator call and changes of the directory. *)
Definition attempt_effect (e : Effect) : Prop :=
  match e with
  | Emit (error_occurred _) | TranslateText _ _ _ _ _ _ _
  | FsWrite _ _ | FsReplace _ _ | FsRemove _ => True
  | _ => False
  end.

(** The effects the loop can have: neither the batch-completed signal nor a
    progress message other than the per-file one. *)
Definition loop_effect (e : Effect) : Prop :=
  match e with
  | Emit all_translations_completed => False
  | Emit (progress_updated message) =>
      ∃ i total_files filename, message = progress_message i total_files filename
  | ThreadStart => False
  | _ => True
  end.

(** The world [run] enters its loop with (lines 44-45). *)
Definition start (self : TranslationWorker) (s : World DB) : World DB :=
  match segment_size self with
  | Some _ => set_translator_segment_size (segment_size self) s
  | None => s
  end.

(** [stop] was called before the loop reaches file [k] (counted from 1):
    before [run] began, or in a phase that ends no later than the test at the
    top of iteration [k]. *)
Definition stop_requested_before (env : Env) (s : World DB) (k : nat) : Prop :=
  _stop_requested s = true
  ∨ ∃ j, 1 ≤ j ∧
      ((j ≤ k ∧ stop_called env (Before j) = true)
       ∨ (j < k ∧ stop_called env (During j) = true)).

(** The environment [env] with every call of [stop] left out. *)
Definition no_stops (env : Env) : Env :=
  {| stop_called := λ _, false; io := io env |}.

(** The run goes through its loop without an exception and finds no stop
    request at line 72. *)
Definition completes_unstopped (self : TranslationWorker) (env : Env)
    (s : World DB) : bool :=
  match loop self env (length (files_to_translate self)) 1
          (files_to_translate self) 0 (start self s) with
  | (Ret _, s1, _) => negb (_stop_requested s1 || stop_called env AfterLoop)
  | (Raise _, _, _) | (Abort _, _, _) => false
  end.

(** What the translator answers in world [s] when it is asked for the text
    of a file that holds [text] (the text as [read] returns it). *)
Definition translator_outcome (self : TranslationWorker) (o : IOOracle)
    (s : World DB) (text : string) : TOutcome :=
  translate_text o (translator_segment_size s) (universal_newlines text)
    (source_lang self) (target_lang self) (api_key self) (provider self)
    (model self) (custom_terms self).

(** The attempt on [filename] fails in one of the three ways of the claim,
    with [detail] as the text of the error: the read fails, the translator
    raises, or it returns nothing or the empty string. *)
Definition attempt_fails (self : TranslationWorker) (o : IOOracle)
    (filename : string) (s : World DB) (detail : string) : Prop :=
  read_fault o = Some detail
  ∨ (read_fault o = None ∧ fs s !! input_path_of self filename = None
     ∧ detail = no_file_error o (input_path_of self filename))
  ∨ ∃ text, read_fault o = None ∧ fs s !! input_path_of self filename = Some text
      ∧ (translator_outcome self o s text = TRaise detail
         ∨ ((translator_outcome self o s text = TReturn None
             ∨ translator_outcome self o s text = TReturn (Some ""))
            ∧ detail = "No se obtuvo traducción")).

(** *** Counting and pacing in a trace *)

Definition is_translate_call (e : Effect) : bool :=
  match e with TranslateText _ _ _ _ _ _ _ => true | _ => false end.

Definition is_success (e : Effect) : bool :=
  match e with Emit (translation_completed _ true) => true | _ => false end.

(** How often the translator was called. *)
Definition count_calls (tr : list Effect) : nat :=
  length (filter (λ e, is_translate_call e = true) tr).

(** How many pauses were taken. *)
Definition count_sleeps (tr : list Effect) : nat :=
  length (filter (λ e, is_sleep e = true) tr).

(** How often [translation_completed(_, True)] was emitted. *)
Definition count_success (tr : list Effect) : nat :=
  length (filter (λ e, is_success e = true) tr).

(** Whether, after [tr], a translator call is not yet followed by a pause of
    5 seconds or more; [pending] says so for the time before [tr]. *)
Fixpoint pending_after (pending : bool) (tr : list Effect) : bool :=
  match tr with
  | [] => pending
  | TranslateText _ _ _ _ _ _ _ :: tr' => pending_after true tr'
  | Sleep seconds :: tr' => pending_after (pending && negb (5 <=? seconds)) tr'
  | _ :: tr' => pending_after pending tr'
  end.

(** No translator call of [tr] comes while an earlier call is not yet
    followed by a pause of 5 seconds or more. *)
Fixpoint paced (pending : bool) (tr : list Effect) : bool :=
  match tr with
  | [] => true
  | TranslateText _ _ _ _ _ _ _ :: tr' => negb pending && paced true tr'
  | Sleep seconds :: tr' => paced (pending && negb (5 <=? seconds)) tr'
  | _ :: tr' => paced pending tr'
  end.

(** Writing the temporary file or moving it over the original raises, with
    [detail] as the text of the error. *)
Definition commit_fails (o : IOOracle) (detail : string) : Prop :=
  (∃ partial, write_fault o = Some (partial, detail))
  ∨ (write_fault o = None ∧ replace_fault o = Some detail).

(** The paths [_translate_single_file] works on for the files of the batch. *)
Definition batch_path (self : TranslationWorker) (path : string) : Prop :=
  ∃ file_info filename,
    file_info ∈ files_to_translate self
    ∧ file_info !! "name" = Some filename
    ∧ (path = input_path_of self filename
       ∨ path = temp_output_path_of self filename).

(** The store keeps what it recorded: a file for which a record was written
    is reported as translated from then on, also after records for other
    files. *)
Definition store_keeps_records : Prop :=
  (∀ (d d' : DB) name source target,
     add_translation_record d name source target = Ret d' →
     is_file_translated d' name = Ret true)
  ∧ (∀ (d d' : DB) name source target other,
       add_translation_record d name source target = Ret d' →
       is_file_translated d other = Ret true →
       is_file_translated d' other = Ret true).

(** Whatever the translator and the store raise during the run is an
    [Exception]. *)
Definition only_exceptions (env : Env) : Prop :=
  (∀ i seg text source target key prov mdl terms e,
     translate_text (io env i) seg text source target key prov mdl terms
     ≠ TAbort e)
  ∧ (∀ (d : DB) name e, is_file_translated d name ≠ Abort e)
  ∧ (∀ (d : DB) name source target e,
       add_translation_record d name source target ≠ Abort e).

(** Every character of [s] is in the ASCII range. *)
Definition is_ascii (s : string) : bool :=
  forallb (λ c, nat_of_ascii c <? 128) (list_ascii_of_string s).

End vocabulary.

(** * Facts *)

Section WorkerFacts.
Context {DB : Type} `{RecordStore DB}.
Import Worker.

Implicit Types (self : TranslationWorker) (s : World DB) (env : Env)
  (o : IOOracle) (tr : list Effect) (filename : string).

(** ** Strings, paths and traces *)

Lemma length_append (a b : string) :
  String.length (a +:+ b) = String.length a + String.length b.
Proof. induction a as [|c a IH]; simpl; [done | by rewrite IH]. Qed.

(** The temporary file is never the file being translated. *)
Lemma temp_ne_input self filename :
  temp_output_path_of self filename ≠ input_path_of self filename.
Proof.
  unfold temp_output_path_of, input_path_of. intros Heq.
  apply (f_equal String.length) in Heq. revert Heq.
  unfold os_path_join. simpl String.prefix.
  destruct (String.prefix "/" filename);
    destruct (bool_decide (working_directory self = "")
              || endswith_sep (working_directory self));
    rewrite ?length_append; simpl; rewrite ?length_append; simpl; lia.
Qed.

Lemma progress_ne_final i total_files filename a b :
  progress_message i total_files filename ≠ final_message a b.
Proof. unfold progress_message, final_message. simpl. discriminate. Qed.

Lemma set_stop_requested_id s :
  set_stop_requested (_stop_requested s) s = s.
Proof. by destruct s. Qed.

Lemma count_completed_app tr1 tr2 :
  count_completed (tr1 ++ tr2) = count_completed tr1 + count_completed tr2.
Proof. unfold count_completed. by rewrite filter_app, length_app. Qed.

Lemma signals_app tr1 tr2 : signals (tr1 ++ tr2) = signals tr1 ++ signals tr2.
Proof. apply omap_app. Qed.

Lemma attempt_effect_loop_effect e : attempt_effect e → loop_effect e.
Proof. by destruct e as [[]| | | | | |]. Qed.

Lemma loop_effect_count tr : Forall loop_effect tr → count_completed tr = 0.
Proof.
  unfold count_completed. induction 1 as [|e tr He _ IH]; [done|].
  rewrite filter_cons. destruct e as [[]| | | | | |]; simpl in *; done.
Qed.

Lemma loop_effect_not_final tr a b :
  Forall loop_effect tr → Emit (progress_updated (final_message a b)) ∉ tr.
Proof.
  intros Hall Hin. rewrite Forall_forall in Hall.
  destruct (Hall _ Hin) as (i & t & f & Heq).
  by eapply progress_ne_final.
Qed.

(** ** [_translate_single_file] *)

Ltac unfold_attempt :=
  unfold _translate_single_file, translate_handler, translator_translate_text,
    read_file, write_file, os_replace, os_remove, os_path_exists, fs_effect,
    try_except, try_except_all, bind, ret, raise, abort, emit, sleep, effect,
    get, modify, lift.

Ltac other_path :=
  rewrite ?lookup_delete_ne, ?lookup_insert_ne by apply temp_ne_input.

(** The call raises no [Exception]; it leaves the store, the flag and the
    translator's setting alone; the directory changes as the trace says.  When
    it returns [False], the file is as before and exactly one error was
    signalled; when it returns [True], the text was read, translated to
    something non-empty, written to the temporary file and moved over the
    original.  What leaves it otherwise is what the translator raised that is
    no [Exception], with nothing done but the call. *)
Lemma translate_single_file_spec self o filename s :
  ∃ (r : Res bool) (s' : World DB) tr,
    _translate_single_file self o filename s = (r, s', tr)
    ∧ db s' = db s
    ∧ _stop_requested s' = _stop_requested s
    ∧ translator_segment_size s' = translator_segment_size s
    ∧ fs s' = fs_after tr (fs s)
    ∧ Forall attempt_effect tr
    ∧ (r = Ret false →
       fs s' !! input_path_of self filename = fs s !! input_path_of self filename
       ∧ ∃ detail, signals tr =
           [error_occurred ("Error al traducir " +:+ filename +:+ ": " +:+ detail)])
    ∧ (r = Ret true →
       ∃ text translated,
         fs s !! input_path_of self filename = Some text
         ∧ translator_outcome self o s text = TReturn (Some translated)
         ∧ translated ≠ ""
         ∧ tr = [TranslateText (universal_newlines text) (source_lang self)
                   (target_lang self) (api_key self) (provider self)
                   (model self) (custom_terms self);
                 FsWrite (temp_output_path_of self filename) translated;
                 FsReplace (temp_output_path_of self filename)
                   (input_path_of self filename)])
    ∧ (∀ e, r ≠ Raise e)
    ∧ (∀ e, r = Abort e →
       ∃ text,
         read_fault o = None
         ∧ fs s !! input_path_of self filename = Some text
         ∧ translator_outcome self o s text = TAbort e
         ∧ s' = s
         ∧ tr = [TranslateText (universal_newlines text) (source_lang self)
                   (target_lang self) (api_key self) (provider self)
                   (model self) (custom_terms self)]).
Proof.
  unfold translator_outcome. unfold_attempt.
  repeat (case_match; simplify_eq/=).
  all: do 3 eexists; split; [reflexivity|]; simpl.
  all: split_and!; auto; try discriminate; try done.
  all: try by repeat constructor.
  all: try (intros ?; by simplify_eq).
  all: try (intros _; split; [by other_path | by eexists]).
  all: try (intros _; do 2 eexists; by split_and!).
  all: try (intros ? [= <-]; eexists; by split_and!).
Qed.

(** C2.  When [_translate_single_file] succeeds (returns [True]), the file
    holds exactly what the translator returned, the temporary file is gone,
    and the directory was changed by two steps only: the write of the
    temporary file, which is another path, and the replace.  After each step
    the file holds its old content or the whole translation. *)
Theorem translate_and_commit_success self o filename s s' tr :
  _translate_single_file self o filename s = (Ret true, s', tr) →
  ∃ text translated,
    fs s !! input_path_of self filename = Some text
    ∧ translator_outcome self o s text = TReturn (Some translated)
    ∧ fs s' !! input_path_of self filename = Some translated
    ∧ fs s' !! temp_output_path_of self filename = None
    ∧ temp_output_path_of self filename ≠ input_path_of self filename
    ∧ tr = [TranslateText (universal_newlines text) (source_lang self)
              (target_lang self) (api_key self) (provider self) (model self)
              (custom_terms self);
            FsWrite (temp_output_path_of self filename) translated;
            FsReplace (temp_output_path_of self filename)
              (input_path_of self filename)]
    ∧ fs s' = fs_after tr (fs s)
    ∧ ∀ tr1, tr1 `prefix_of` tr →
        fs_after tr1 (fs s) !! input_path_of self filename = Some text
        ∨ fs_after tr1 (fs s) !! input_path_of self filename = Some translated.
Proof.
  intros Hrun.
  destruct (translate_single_file_spec self o filename s)
    as (b & s1 & tr1 & Heq & _ & _ & _ & Hfs & _ & _ & Htrue & _).
  rewrite Hrun in Heq. simplify_eq.
  destruct Htrue as (text & translated & Hread & Hout & Hne & ->); [done|].
  pose proof (temp_ne_input self filename) as Hpath.
  exists text, translated.
  assert (Hend : fs_after
            [TranslateText (universal_newlines text) (source_lang self)
               (target_lang self) (api_key self) (provider self) (model self)
               (custom_terms self);
             FsWrite (temp_output_path_of self filename) translated;
             FsReplace (temp_output_path_of self filename)
               (input_path_of self filename)] (fs s)
          = <[input_path_of self filename := translated]>
              (delete (temp_output_path_of self filename)
                 (<[temp_output_path_of self filename := translated]> (fs s)))).
  { unfold fs_after. simpl. by rewrite lookup_insert_eq. }
  repeat split; try done.
  - rewrite Hfs, Hend. apply lookup_insert_eq.
  - rewrite Hfs, Hend. rewrite lookup_insert_ne by done. apply lookup_delete_eq.
  - intros pre [rest Hpre].
    destruct pre as [|e1 [|e2 [|e3 pre]]]; simplify_eq/=.
    + by left.
    + by left.
    + left. unfold fs_after. simpl. by rewrite lookup_insert_ne.
    + right. destruct pre; [|done]. rewrite Hend. apply lookup_insert_eq.
Qed.

(** A failed read, a raising translator and an empty translation all end in
    the [except] block or the early [return False]: one error signal naming
    the file, the result [False]. *)
Lemma translate_single_file_fails self o filename s detail :
  attempt_fails self o filename s detail →
  ∃ (s' : World DB) tr,
    _translate_single_file self o filename s = (Ret false, s', tr)
    ∧ signals tr =
        [error_occurred ("Error al traducir " +:+ filename +:+ ": " +:+ detail)].
Proof.
  unfold attempt_fails, translator_outcome.
  intros [Hr | [(Hr & Hl & ->) | (text & Hr & Hl & [Ht | [[Ht|Ht] ->]])]];
    unfold_attempt; rewrite Hr; simpl; rewrite ?Hl; simpl; rewrite ?Ht; simpl;
    repeat (case_match; simplify_eq/=); by do 2 eexists.
Qed.

(** ** One iteration of the loop *)

Ltac unfold_body :=
  unfold body, stop_hook, getitem, bind, ret, raise, emit, sleep, effect, get,
    modify, lift.

(** The body of the loop, path by path. *)
Lemma body_unfold self env total_files i file_info n s :
  body self env total_files i file_info n s =
  if _stop_requested s || stop_called env (Before i)
  then (Ret Break, set_stop_requested true s, [])
  else
    match file_info !! "name" with
    | None => (Raise "'name'", set_stop_requested false s, [])
    | Some filename =>
        let p := Emit (progress_updated (progress_message i total_files filename)) in
        let finish (successful : nat) (s1 : World DB) (tr1 : list Effect) :=
          let stop := _stop_requested s1 || stop_called env (During i) in
          (Ret (Next successful), set_stop_requested stop s1,
           p :: tr1 ++
             (if (i <? total_files) && negb stop then [Sleep 5] else [])) in
        match is_file_translated (db s) filename with
        | Raise e => (Raise e, set_stop_requested false s, [p])
        | Abort e => (Abort e, set_stop_requested false s, [p])
        | Ret true =>
            (Ret (Next n), set_stop_requested (stop_called env (During i)) s, [p])
        | Ret false =>
            match _translate_single_file self (io env i) filename
                    (set_stop_requested false s) with
            | (Raise e, s1, tr1) => (Raise e, s1, p :: tr1)
            | (Abort e, s1, tr1) => (Abort e, s1, p :: tr1)
            | (Ret true, s1, tr1) =>
                match add_translation_record (db s1) filename
                        (source_lang self) (target_lang self) with
                | Raise e => (Raise e, s1, p :: tr1)
                | Abort e => (Abort e, s1, p :: tr1)
                | Ret d =>
                    finish (S n) (set_db d s1)
                      (tr1 ++ [Emit (translation_completed filename true)])
                end
            | (Ret false, s1, tr1) =>
                finish n s1 (tr1 ++ [Emit (translation_completed filename false)])
            end
        end
    end.
Proof.
  unfold_body. simpl.
  destruct (_stop_requested s || stop_called env (Before i)) eqn:Hstop; simpl;
    [done|].
  destruct (file_info !! "name") as [filename|]; simpl; [|done].
  destruct (is_file_translated (db s) filename) as [[|]|e|e]; simpl;
    [done| |done|done].
  destruct (_translate_single_file self (io env i) filename
              (set_stop_requested false s)) as [[[[|]|e|e] s1] tr1]; simpl;
    [| |done|done].
  - destruct (add_translation_record (db s1) filename (source_lang self)
                (target_lang self)) as [d|e|e]; simpl;
      [|by rewrite app_nil_r..].
    destruct ((i <? total_files) && negb (_stop_requested s1 || stop_called env (During i)));
      simpl; by rewrite <- ?app_assoc.
  - destruct ((i <? total_files) && negb (_stop_requested s1 || stop_called env (During i)));
      simpl; by rewrite <- ?app_assoc.
Qed.

Lemma attempt_effect_not_file_completed tr name ok :
  Forall attempt_effect tr → Emit (translation_completed name ok) ∉ tr.
Proof. intros Hall Hin. rewrite Forall_forall in Hall. apply (Hall _ Hin). Qed.

Lemma pause_loop_effect (b : bool) : Forall loop_effect (if b then [Sleep 5] else []).
Proof. destruct b; by repeat constructor. Qed.

Lemma pause_no_signal (b : bool) sig : Emit sig ∉ (if b then [Sleep 5] else []).
Proof. destruct b; [by intros ?%list_elem_of_singleton | apply not_elem_of_nil]. Qed.

Lemma progress_loop_effect i total_files filename :
  loop_effect (Emit (progress_updated (progress_message i total_files filename))).
Proof. simpl. eauto. Qed.

Ltac trace_forall :=
  repeat first
    [ apply Forall_nil_2
    | apply Forall_cons_2
    | apply Forall_app_2
    | apply pause_loop_effect
    | apply progress_loop_effect
    | assumption
    | exact I ].

Ltac trace_member Hin :=
  repeat (rewrite ?elem_of_cons, ?elem_of_app, ?elem_of_nil in Hin);
  repeat match goal with
         | Hor : _ ∨ _ |- _ => destruct Hor
         end;
  simplify_eq; try done;
  try (exfalso; eapply attempt_effect_not_file_completed; eassumption);
  try (exfalso; eapply pause_no_signal; eassumption).

(** What every iteration guarantees, whatever its path. *)
Lemma body_facts self env total_files i file_info n s r s' tr :
  body self env total_files i file_info n s = (r, s', tr) →
  Forall loop_effect tr
  ∧ (∀ name ok, Emit (translation_completed name ok) ∈ tr →
       file_info !! "name" = Some name)
  ∧ translator_segment_size s' = translator_segment_size s
  ∧ (stop_called env (Before i) = true ∨ stop_called env (During i) = true →
       (∀ c, r ≠ Ret c) ∨ _stop_requested s' = true)
  ∧ (_stop_requested s = true ∨ r = Ret Break →
       r = Ret Break ∧ tr = [] ∧ s' = set_stop_requested true s).
Proof.
  rewrite body_unfold.
  destruct (_stop_requested s || stop_called env (Before i)) eqn:Htop.
  { intros [= <- <- <-]. split_and!; auto. by intros ? ? ?%elem_of_nil. }
  apply orb_false_elim in Htop as [Hflag Hbefore].
  assert (Hbreak : ∀ (c : Res Ctl) (P : Prop),
             _stop_requested s = true ∨ c = Ret Break → c ≠ Ret Break → P)
    by (intros c P [?|?] ?; congruence).
  destruct (file_info !! "name") as [filename|] eqn:Hname; simpl.
  2:{ intros [= <- <- <-]. split_and!; eauto.
      - by intros ? ? ?%elem_of_nil.
      - intros Hor. by eapply Hbreak. }
  destruct (is_file_translated (db s) filename) as [[|]|e|e].
  - intros [= <- <- <-]. split_and!; simpl; auto.
    + trace_forall.
    + intros name ok Hin. trace_member Hin.
    + intros [?|Hd]; [congruence|]. by right.
    + intros Hor. by eapply Hbreak.
  - destruct (translate_single_file_spec self (io env i) filename
                (set_stop_requested false s))
      as (b & s1 & tr1 & Heq & Hdb & Hstop & Hseg & _ & Hall & _).
    rewrite Heq. simpl in Hstop, Hseg.
    assert (Hall' : Forall loop_effect tr1)
      by (eapply Forall_impl; [exact Hall | apply attempt_effect_loop_effect]).
    destruct b as [[|]|e|e];
      [destruct (add_translation_record (db s1) filename (source_lang self)
                   (target_lang self)) as [d|e|e]| | |].
    all: intros [= <- <- <-]; split_and!; simpl; eauto.
    all: try (intros Hor; by eapply Hbreak).
    all: try (intros name ok Hin; by trace_member Hin).
    all: try (intros [?|Hd]; [congruence|]; right; rewrite Hd; apply orb_true_r).
    all: try (intros _; by left).
    all: trace_forall.
  - intros [= <- <- <-]. split_and!; simpl; eauto.
    + trace_forall.
    + intros name ok Hin. trace_member Hin.
    + intros Hor. by eapply Hbreak.
  - intros [= <- <- <-]. split_and!; simpl; eauto.
    + trace_forall.
    + intros name ok Hin. trace_member Hin.
    + intros Hor. by eapply Hbreak.
Qed.

(** ** The loop *)

Lemma loop_cons self env total_files i file_info rest n s :
  loop self env total_files i (file_info :: rest) n s =
  match body self env total_files i file_info n s with
  | (Ret Break, s1, tr1) => (Ret n, s1, tr1)
  | (Ret (Next successful), s1, tr1) =>
      let '(r, s2, tr2) := loop self env total_files (S i) rest successful s1 in
      (r, s2, tr1 ++ tr2)
  | (Raise e, s1, tr1) => (Raise e, s1, tr1)
  | (Abort e, s1, tr1) => (Abort e, s1, tr1)
  end.
Proof.
  simpl. unfold bind at 1.
  destruct (body self env total_files i file_info n s) as [[[[|n']|e|e] s1] tr1];
    [|done..].
  unfold ret. by rewrite app_nil_r.
Qed.

(** Once the flag is set, the loop does nothing more. *)
Lemma loop_stopped self env total_files i files n s :
  _stop_requested s = true →
  loop self env total_files i files n s = (Ret n, s, []).
Proof.
  intros Hflag. destruct files as [|file_info rest]; [done|].
  rewrite loop_cons, body_unfold, Hflag. simpl.
  by rewrite <- Hflag, set_stop_requested_id.
Qed.

Lemma loop_facts self env total_files files :
  ∀ i n s r s' tr,
    loop self env total_files i files n s = (r, s', tr) →
    Forall loop_effect tr
    ∧ (∀ name ok, Emit (translation_completed name ok) ∈ tr →
         ∃ j file_info, files !! j = Some file_info
                        ∧ file_info !! "name" = Some name)
    ∧ translator_segment_size s' = translator_segment_size s
    ∧ ((∃ j, i ≤ j < i + length files
             ∧ (stop_called env (Before j) = true
                ∨ stop_called env (During j) = true)) →
         (∀ m, r ≠ Ret m) ∨ _stop_requested s' = true)
    ∧ (_stop_requested s = true → _stop_requested s' = true).
Proof.
  induction files as [|file_info rest IH]; intros i n s r s' tr.
  { intros [= <- <- <-]. split_and!; auto.
    - by intros ? ? ?%elem_of_nil.
    - intros (j & Hj & _). simpl in Hj. lia. }
  intros Hloop.
  destruct (decide (_stop_requested s = true)) as [Hflag|Hflag].
  { rewrite loop_stopped in Hloop by done. simplify_eq. split_and!; auto.
    by intros ? ? ?%elem_of_nil. }
  rewrite loop_cons in Hloop.
  destruct (body self env total_files i file_info n s) as [[c s1] tr1] eqn:Hbody.
  apply body_facts in Hbody as (Hall1 & Hin1 & Hseg1 & Hstop1 & Hbreak1).
  destruct c as [[|n']|e|e]; simplify_eq.
  - destruct Hbreak1 as (_ & -> & ->); [by right|].
    split_and!; auto; try done. by intros ? ? ?%elem_of_nil.
  - destruct (loop self env total_files (S i) rest n' s1) as [[r2 s2] tr2] eqn:Hrest.
    simplify_eq.
    apply IH in Hrest as (Hall2 & Hin2 & Hseg2 & Hstop2 & Hmono2).
    split_and!.
    + by apply Forall_app_2.
    + intros name ok [Hin|Hin]%elem_of_app.
      * exists 0, file_info. eauto.
      * destruct (Hin2 _ _ Hin) as (j & fi & Hj & Hname). exists (S j), fi. eauto.
    + congruence.
    + intros (j & Hj & Hcall). simpl in Hj.
      destruct (decide (j = i)) as [->|Hne].
      * destruct (Hstop1 Hcall) as [Hno|Hset]; [by destruct (Hno (Next n'))|].
        right. auto.
      * apply Hstop2. exists j. split; [lia | done].
    + done.
  - split_and!; eauto; try (intros _; by left);
      intros name ok Hin; exists 0, file_info; eauto.
  - split_and!; eauto; try (intros _; by left);
      intros name ok Hin; exists 0, file_info; eauto.
Qed.

(** The loop over a list in two parts is the loop over the first part
    followed by the loop over the second. *)
Lemma loop_app self env total_files xs ys :
  ∀ i n s,
    loop self env total_files i (xs ++ ys) n s =
    match loop self env total_files i xs n s with
    | (Ret n1, s1, tr1) =>
        let '(r, s2, tr2) := loop self env total_files (i + length xs) ys n1 s1 in
        (r, s2, tr1 ++ tr2)
    | (Raise e, s1, tr1) => (Raise e, s1, tr1)
    | (Abort e, s1, tr1) => (Abort e, s1, tr1)
    end.
Proof.
  induction xs as [|file_info rest IH]; intros i n s.
  { simpl. rewrite Nat.add_0_r. by destruct (loop _ _ _ _ ys n s) as [[? ?] ?]. }
  rewrite <- app_comm_cons, !loop_cons.
  destruct (body self env total_files i file_info n s) as [[c s1] tr1] eqn:Hbody.
  destruct c as [[|n']|e|e]; [| |done|done].
  - apply body_facts in Hbody as (_ & _ & _ & _ & Hbreak).
    destruct Hbreak as (_ & -> & ->); [by right|].
    by rewrite loop_stopped.
  - rewrite IH.
    replace (i + length (file_info :: rest)) with (S i + length rest)
      by (simpl; lia).
    destruct (loop self env total_files (S i) rest n' s1) as [[[n1|e|e] s2] tr2];
      [|done..].
    destruct (loop self env total_files (S i + length rest) ys n1 s2)
      as [[r s3] tr3].
    by rewrite app_assoc.
Qed.

(** ** [run] *)

(** [run], path by path: the loop, then what lines 72-81 add to its trace. *)
Lemma run_unfold self env s :
  run self env s =
  let total_files := length (files_to_translate self) in
  match loop self env total_files 1 (files_to_translate self) 0 (start self s) with
  | (Ret successful, s1, tr) =>
      if _stop_requested s1 || stop_called env AfterLoop
      then (Ret tt, set_stop_requested true s1,
            tr ++ [Emit all_translations_completed])
      else (Ret tt, set_stop_requested false s1,
            tr ++ [Emit (progress_updated (final_message successful total_files));
                   Emit all_translations_completed;
                   Emit all_translations_completed])
  | (Raise e, s1, tr) =>
      (Ret tt, s1,
       tr ++ [Emit (error_occurred ("Error en el proceso de traducción: " +:+ e));
              Emit all_translations_completed])
  | (Abort e, s1, tr) => (Abort e, s1, tr ++ [Emit all_translations_completed])
  end.
Proof.
  unfold run, run_try, try_finally, try_except, start, stop_hook, bind, ret,
    emit, effect, get, modify.
  destruct (segment_size self) as [z|]; simpl.
  all: destruct (loop _ _ _ _ _ _ _) as [[[successful|e|e] s1] tr]; simpl.
  all: try destruct (_stop_requested s1 || stop_called env AfterLoop); simpl.
  all: by rewrite <- ?app_assoc.
Qed.

Lemma start_stop_requested self s :
  _stop_requested (start self s) = _stop_requested s.
Proof. unfold start. by destruct (segment_size self). Qed.

(** [all_translations_completed] is emitted twice by a run that gets through
    its loop and finds no stop request, once by every other run. *)
Lemma run_completed_count self env s :
  count_completed (run self env s).2 =
  if completes_unstopped self env s then 2 else 1.
Proof.
  rewrite run_unfold. unfold completes_unstopped. simpl.
  destruct (loop self env _ 1 _ 0 (start self s)) as [[r s1] tr] eqn:Hloop.
  apply loop_facts in Hloop as (Hall & _).
  apply loop_effect_count in Hall.
  destruct r as [successful|e|e]; simpl;
    [destruct (_stop_requested s1 || stop_called env AfterLoop); simpl| |];
    rewrite count_completed_app, Hall; reflexivity.
Qed.

(** ** The claims about one file *)

(** The iteration for a file the store reports as translated. *)
Lemma body_already_translated self env total_files i file_info n s filename :
  _stop_requested s = false →
  stop_called env (Before i) = false →
  file_info !! "name" = Some filename →
  is_file_translated (db s) filename = Ret true →
  body self env total_files i file_info n s =
    (Ret (Next n), set_stop_requested (stop_called env (During i)) s,
     [Emit (progress_updated (progress_message i total_files filename))]).
Proof.
  intros Hflag Hbefore Hname Hdone.
  rewrite body_unfold, Hflag, Hbefore, Hname. simpl. by rewrite Hdone.
Qed.

(** C4.  A file the record store reports as translated gets its progress
    message and nothing else: the iteration signals no [FileCompleted], calls
    no translator, leaves the store and the directory as they are and takes no
    pause; the loop goes on with the next file and the same counter. *)
Theorem already_translated_skipped self env total_files i file_info rest n s
    filename :
  _stop_requested s = false →
  stop_called env (Before i) = false →
  file_info !! "name" = Some filename →
  is_file_translated (db s) filename = Ret true →
  ∃ s1,
    body self env total_files i file_info n s =
      (Ret (Next n), s1,
       [Emit (progress_updated (progress_message i total_files filename))])
    ∧ db s1 = db s
    ∧ fs s1 = fs s
    ∧ loop self env total_files i (file_info :: rest) n s =
        (let '(r, s2, tr2) := loop self env total_files (S i) rest n s1 in
         (r, s2,
          Emit (progress_updated (progress_message i total_files filename))
            :: tr2)).
Proof.
  intros Hflag Hbefore Hname Hdone.
  exists (set_stop_requested (stop_called env (During i)) s).
  pose proof (body_already_translated self env total_files i file_info n s
                filename Hflag Hbefore Hname Hdone) as Hbody.
  split_and!; try done.
  by rewrite loop_cons, Hbody.
Qed.

(** C3, as the code has it.  When the read fails, the translator raises an
    [Exception] or the translator returns nothing, the iteration signals the
    progress message, one error that names the file and
    [FileCompleted(name, False)], in this order; the file and the record store
    are as before; the loop goes on with the next file and the same counter.
    The text of the error is that of the exception ([str(e)]), for a missing
    file the text the system gives. *)
Theorem failed_file_reported self env total_files i file_info rest n s
    filename detail :
  _stop_requested s = false →
  stop_called env (Before i) = false →
  file_info !! "name" = Some filename →
  is_file_translated (db s) filename = Ret false →
  attempt_fails self (io env i) filename s detail →
  ∃ s1 tr1,
    body self env total_files i file_info n s = (Ret (Next n), s1, tr1)
    ∧ signals tr1 =
        [progress_updated (progress_message i total_files filename);
         error_occurred ("Error al traducir " +:+ filename +:+ ": " +:+ detail);
         translation_completed filename false]
    ∧ fs s1 !! input_path_of self filename = fs s !! input_path_of self filename
    ∧ db s1 = db s
    ∧ loop self env total_files i (file_info :: rest) n s =
        (let '(r, s2, tr2) := loop self env total_files (S i) rest n s1 in
         (r, s2, tr1 ++ tr2)).
Proof.
  intros Hflag Hbefore Hname Hnew Hfails.
  destruct (translate_single_file_fails self (io env i) filename
              (set_stop_requested false s) detail Hfails)
    as (s1 & tr1 & Hrun & Hsig).
  destruct (translate_single_file_spec self (io env i) filename
              (set_stop_requested false s))
    as (b & s1' & tr1' & Heq & Hdb & _ & _ & _ & _ & Hfalse & _).
  rewrite Hrun in Heq. simplify_eq.
  destruct Hfalse as [Hfile _]; [done|].
  eexists _, _. split.
  { rewrite body_unfold, Hflag, Hbefore, Hname. simpl.
    rewrite Hnew, Hrun. reflexivity. }
  split_and!.
  - simpl. rewrite !signals_app, Hsig. simpl.
    by destruct ((i <? total_files) && _).
  - done.
  - done.
  - rewrite loop_cons, body_unfold, Hflag, Hbefore, Hname. simpl.
    rewrite Hnew, Hrun. reflexivity.
Qed.

(** C6, as the code has it.  After a file that was attempted (not skipped),
    is not the last and leaves no stop request behind, the iteration ends with
    one pause of 5 seconds; after a file skipped as already translated the
    iteration takes no pause. *)
Theorem pause_after_attempt_only self env total_files i file_info n s filename
    successful s1 tr :
  _stop_requested s = false →
  stop_called env (Before i) = false →
  file_info !! "name" = Some filename →
  body self env total_files i file_info n s = (Ret (Next successful), s1, tr) →
  i < total_files →
  _stop_requested s1 = false →
  (is_file_translated (db s) filename = Ret false →
     ∃ tr0, tr = tr0 ++ [Sleep 5] ∧ Forall (λ e, is_sleep e = false) tr0)
  ∧ (is_file_translated (db s) filename = Ret true →
     Forall (λ e, is_sleep e = false) tr).
Proof.
  intros Hflag Hbefore Hname Hbody Hlast Hquiet.
  rewrite body_unfold, Hflag, Hbefore, Hname in Hbody. simpl in Hbody.
  apply Nat.ltb_lt in Hlast.
  split; intros Hdone; rewrite Hdone in Hbody.
  - destruct (translate_single_file_spec self (io env i) filename
                (set_stop_requested false s))
      as (b & s2 & tr2 & Heq & _ & _ & _ & _ & Hall & _).
    rewrite Heq in Hbody.
    assert (Hnosleep : Forall (λ e, is_sleep e = false) tr2).
    { eapply Forall_impl; [exact Hall|]. by intros [[]| | | | | |]. }
    destruct b as [[|]|e|e];
      [destruct (add_translation_record (db s2) filename (source_lang self)
                   (target_lang self)) as [d|e|e]; [|done..]| |done|done];
      simplify_eq; simpl in Hquiet; rewrite Hquiet, Hlast; simpl.
    all: eexists (_ :: _ ++ [_]); split; [reflexivity|].
    all: constructor; [done|]; apply Forall_app_2; [done|by repeat constructor].
  - simplify_eq. by repeat constructor.
Qed.

(** ** The claims about a whole run *)

(** C10.  The run over an empty list, with no stop requested: no translator
    call, no change of the store or of the directory, no per-file signal; the
    summary with 0 of 0, then the batch-completed signal (from line 76 and
    again from line 81). *)
Theorem empty_batch self env s :
  files_to_translate self = [] →
  _stop_requested s = false →
  stop_called env AfterLoop = false →
  run self env s =
    (Ret tt, start self s,
     [Emit (progress_updated
              "Traducción completada. 0 de 0 archivos traducidos exitosamente.");
      Emit all_translations_completed;
      Emit all_translations_completed])
  ∧ db (start self s) = db s
  ∧ fs (start self s) = fs s.
Proof.
  intros Hfiles Hflag Hafter. split_and!.
  - rewrite run_unfold, Hfiles. simpl.
    rewrite start_stop_requested, Hflag, Hafter. simpl.
    assert (set_stop_requested false (start self s) = start self s) as ->; [|done].
    rewrite <- (start_stop_requested self s) in Hflag.
    rewrite <- Hflag. apply set_stop_requested_id.
  - unfold start. by destruct (segment_size self).
  - unfold start. by destruct (segment_size self).
Qed.

(** C7, as the code has it.  [__init__] assigns the batch's [segment_size] to
    the translator whether or not it is [None]; [run] assigns it again when it
    is not [None] and otherwise leaves the translator's setting as it finds
    it. *)
Theorem segment_size_assignment :
  (∀ files directory source target key prov mdl terms seg (s : World DB),
     translator_segment_size
       (__init__ files directory source target key prov mdl terms seg s).1.2 = seg)
  ∧ (∀ self env s,
       translator_segment_size (run self env s).1.2 =
       match segment_size self with
       | Some z => Some z
       | None => translator_segment_size s
       end).
Proof.
  split; [done|].
  intros self env s. rewrite run_unfold. simpl.
  destruct (loop self env _ 1 _ 0 (start self s)) as [[r s1] tr] eqn:Hloop.
  apply loop_facts in Hloop as (_ & _ & Hseg & _).
  assert (Hstart : translator_segment_size (start self s) =
            match segment_size self with
            | Some z => Some z
            | None => translator_segment_size s
            end) by (unfold start; by destruct (segment_size self)).
  destruct r as [successful|e|e]; simpl;
    [destruct (_stop_requested s1 || stop_called env AfterLoop); simpl| |];
    congruence.
Qed.

(** ** Stopping *)

(** When [stop] was called before the loop reaches file [k], the loop ends
    stopped or by an exception, and only the files before [k] were handled. *)
Lemma loop_stopped_before self env total_files files k n s :
  1 ≤ k ≤ length files →
  stop_requested_before env s k →
  ∃ r (s' : World DB) tr,
    loop self env total_files 1 files n s = (r, s', tr)
    ∧ Forall loop_effect tr
    ∧ (∀ name ok, Emit (translation_completed name ok) ∈ tr →
         ∃ j file_info, j < k - 1 ∧ files !! j = Some file_info
                        ∧ file_info !! "name" = Some name)
    ∧ ((∀ m, r ≠ Ret m) ∨ _stop_requested s' = true).
Proof.
  intros Hk [Hflag|(j & Hj & Hcall)].
  { rewrite loop_stopped by done. eexists _, _, _. split; [done|].
    split_and!; auto. by intros ? ? ?%elem_of_nil. }
  rewrite <- (take_drop (k - 1) files), loop_app.
  assert (Hlen : length (take (k - 1) files) = k - 1)
    by (rewrite length_take; lia).
  rewrite Hlen. replace (1 + (k - 1)) with k by lia.
  destruct (loop self env total_files 1 (take (k - 1) files) n s)
    as [[r1 s1] tr1] eqn:Hpre.
  apply loop_facts in Hpre as (Hall & Hin & _ & Hstop & _).
  assert (Hnames : ∀ name ok, Emit (translation_completed name ok) ∈ tr1 →
            ∃ j file_info, j < k - 1
              ∧ (take (k - 1) files ++ drop (k - 1) files) !! j = Some file_info
              ∧ file_info !! "name" = Some name).
  { intros name ok Hmem. destruct (Hin _ _ Hmem) as (j' & fi & Hlook & Hname).
    exists j', fi. apply lookup_lt_Some in Hlook as Hlt. rewrite Hlen in Hlt.
    split_and!; [done| |done]. by rewrite lookup_app_l by lia. }
  destruct r1 as [n1|e|e].
  2,3: eexists _, _, _; (split; [done|]); split_and!; eauto.
  assert (Htop : _stop_requested s1 || stop_called env (Before k) = true).
  { destruct (decide (j = k)) as [->|Hne].
    - destruct Hcall as [[_ Hb]|[Hlt _]]; [|lia]. rewrite Hb. apply orb_true_r.
    - destruct Hstop as [Hno|Hset]; [|by destruct (Hno n1)|by rewrite Hset].
      exists j. rewrite Hlen. split; [lia|]. destruct Hcall as [[_ ?]|[_ ?]]; auto. }
  destruct (drop (k - 1) files) as [|file_info rest] eqn:Hdrop.
  { apply (f_equal length) in Hdrop. rewrite length_drop in Hdrop. simpl in Hdrop.
    lia. }
  rewrite loop_cons, body_unfold, Htop.
  eexists _, _, _. split; [done|]. rewrite app_nil_r.
  split_and!; auto.
Qed.

(** C5.  When [stop] was called before the loop reaches file [k]: every
    [FileCompleted] of the run is for one of the files before [k], the summary
    message is not emitted, and the batch-completed signal is emitted (once).
    And the request is looked at by the loop at the top of an iteration only:
    an iteration that got past that test runs to its end with the result, the
    signals, the files and the store it would have with no [stop] at all. *)
Theorem stop_before_file self env s k r s' tr :
  1 ≤ k ≤ length (files_to_translate self) →
  stop_requested_before env s k →
  run self env s = (r, s', tr) →
  (∀ name ok, Emit (translation_completed name ok) ∈ tr →
     ∃ j file_info, j < k - 1
       ∧ files_to_translate self !! j = Some file_info
       ∧ file_info !! "name" = Some name)
  ∧ (∀ a b, Emit (progress_updated (final_message a b)) ∉ tr)
  ∧ count_completed tr = 1
  ∧ (∀ total_files i file_info n (s1 : World DB),
       _stop_requested s1 = false →
       stop_called env (Before i) = false →
       ∃ c (w w0 : World DB) t t0,
         body self env total_files i file_info n s1 = (c, w, t)
         ∧ body self (no_stops env) total_files i file_info n s1 = (c, w0, t0)
         ∧ c ≠ Ret Break
         ∧ signals t = signals t0
         ∧ fs w = fs w0
         ∧ db w = db w0).
Proof.
  intros Hk Hreq Hrun.
  assert (Hreq' : stop_requested_before env (start self s) k).
  { destruct Hreq as [Hflag|Hcall]; [left|by right].
    by rewrite start_stop_requested. }
  destruct (loop_stopped_before self env (length (files_to_translate self))
              (files_to_translate self) k 0 (start self s) Hk Hreq')
    as (r1 & s1 & tr1 & Hloop & Hall & Hnames & Hend).
  rewrite run_unfold in Hrun. simpl in Hrun. rewrite Hloop in Hrun.
  pose proof (loop_effect_count _ Hall) as Hcount.
  assert (Htail : ∃ tail, tr = tr1 ++ tail ∧ count_completed tail = 1
            ∧ (∀ name ok, Emit (translation_completed name ok) ∉ tail)
            ∧ (∀ a b, Emit (progress_updated (final_message a b)) ∉ tail)).
  { destruct r1 as [n1|e|e].
    - destruct Hend as [Hno|Hset]; [by destruct (Hno n1)|]. rewrite Hset in Hrun.
      simpl in Hrun. simplify_eq. eexists. split; [done|].
      split_and!; [done|..]; intros ? ? ?%list_elem_of_singleton; done.
    - simplify_eq. eexists. split; [done|].
      split_and!; [done|..]; intros ? ?;
        rewrite elem_of_cons, list_elem_of_singleton; intros [?|?]; done.
    - simplify_eq. eexists. split; [done|].
      split_and!; [done|..]; intros ? ? ?%list_elem_of_singleton; done. }
  destruct Htail as (tail & -> & Hone & Hnofile & Hnofinal).
  split_and!.
  - intros name ok [Hin|Hin]%elem_of_app; [eauto|]. by apply Hnofile in Hin.
  - intros a b [Hin|Hin]%elem_of_app.
    + by eapply loop_effect_not_final.
    + by eapply Hnofinal.
  - by rewrite count_completed_app, Hcount, Hone.
  - intros total_files i file_info n w1 Hflag Hbefore.
    rewrite !body_unfold. simpl. rewrite Hflag, Hbefore. simpl.
    destruct (file_info !! "name") as [filename|]; [|by eexists _, _, _, _, _].
    simpl.
    destruct (is_file_translated (db w1) filename) as [[|]|e|e];
      [by eexists _, _, _, _, _| |by eexists _, _, _, _, _..].
    destruct (_translate_single_file self (io env i) filename
                (set_stop_requested false w1)) as [[[[|]|e|e] w2] t2];
      [destruct (add_translation_record (db w2) filename (source_lang self)
                   (target_lang self)) as [d|e|e]| | |].
    all: eexists _, _, _, _, _; split_and!; try done.
    all: simpl; rewrite !signals_app; f_equal; f_equal.
    all: by repeat destruct (_ && _).
Qed.

(** * Further properties of the worker *)

(** ** Paths *)

Lemma append_inj_r (a b c : string) : a +:+ b = a +:+ c → b = c.
Proof. induction a as [|x a IH]; simpl; [done|]. intros [= Heq]. auto. Qed.

(** The temporary path of a file is never the path of that file, and two
    file names never share a temporary path. *)
Theorem temporary_path_distinct self :
  (∀ filename,
     temp_output_path_of self filename ≠ input_path_of self filename)
  ∧ (∀ filename1 filename2,
       temp_output_path_of self filename1 = temp_output_path_of self filename2 →
       filename1 = filename2).
Proof.
  split; [apply temp_ne_input|].
  intros f1 f2. unfold temp_output_path_of, os_path_join. simpl String.prefix.
  destruct (bool_decide (working_directory self = "")
            || endswith_sep (working_directory self)).
  - intros Heq%append_inj_r. simpl in Heq. by simplify_eq.
  - intros Heq%append_inj_r. simpl in Heq. by simplify_eq.
Qed.

(** ** One attempt *)

Lemma paced_app (pending : bool) tr1 tr2 :
  paced pending (tr1 ++ tr2) =
  paced pending tr1 && paced (pending_after pending tr1) tr2.
Proof.
  revert pending. induction tr1 as [|e tr1 IH]; intros pending; [done|].
  destruct e as [sig|seconds| | | | |]; simpl; rewrite ?IH; try done.
  by rewrite andb_assoc.
Qed.

Lemma pending_after_app (pending : bool) tr1 tr2 :
  pending_after pending (tr1 ++ tr2) =
  pending_after (pending_after pending tr1) tr2.
Proof.
  revert pending. induction tr1 as [|e tr1 IH]; intros pending; [done|].
  by destruct e as [sig|seconds| | | | |]; simpl; rewrite ?IH.
Qed.

(** What an attempt leaves alone, and how often it calls the translator. *)
Lemma translate_single_file_frame self o filename s :
  ∃ (r : Res bool) (s' : World DB) tr,
    _translate_single_file self o filename s = (r, s', tr)
    ∧ (∀ path, path ≠ input_path_of self filename →
               path ≠ temp_output_path_of self filename →
               fs s' !! path = fs s !! path)
    ∧ (remove_fault o = None →
       fs s !! temp_output_path_of self filename = None →
       fs s' !! temp_output_path_of self filename = None)
    ∧ paced false tr = true
    ∧ count_calls tr ≤ 1
    ∧ count_sleeps tr = 0
    ∧ count_success tr = 0.
Proof.
  pose proof (temp_ne_input self filename) as Hpath.
  unfold_attempt.
  repeat (case_match; simplify_eq/=).
  all: do 3 eexists; split; [reflexivity|]; simpl.
  all: split_and!; try done; try (unfold count_calls; simpl; lia).
  all: try (intros path Hin Htemp; by simplify_map_eq).
  all: try (intros _ Hnone; by simplify_map_eq).
Qed.

(** An attempt raises no [Exception]: whatever fails in it, it returns [True]
    or [False].  The one thing that leaves it is what the translator raises
    that is no [Exception] (line 115 is [except Exception]).  In every case it
    leaves the record store, the stop flag and the translator's setting as
    they are. *)
Theorem translate_single_file_catches_exceptions self o filename s :
  ((∃ b : bool, (_translate_single_file self o filename s).1.1 = Ret b)
   ∨ (∃ e text,
        (_translate_single_file self o filename s).1.1 = Abort e
        ∧ read_fault o = None
        ∧ fs s !! input_path_of self filename = Some text
        ∧ translator_outcome self o s text = TAbort e))
  ∧ db (_translate_single_file self o filename s).1.2 = db s
  ∧ _stop_requested (_translate_single_file self o filename s).1.2
    = _stop_requested s
  ∧ translator_segment_size (_translate_single_file self o filename s).1.2
    = translator_segment_size s.
Proof.
  destruct (translate_single_file_spec self o filename s)
    as (r & s' & tr & -> & Hdb & Hstop & Hseg & _ & _ & _ & _ & Hraise & Habort).
  split_and!; try done. simpl.
  destruct r as [b|e|e].
  - left. by exists b.
  - by destruct (Hraise e).
  - right. destruct (Habort e eq_refl) as (text & ? & ? & ? & _).
    by exists e, text.
Qed.

(** When removing a file does not fail and no temporary file of the name is
    there before, none is there after the attempt, however it ends. *)
Theorem no_temporary_file_left self o filename s :
  remove_fault o = None →
  fs s !! temp_output_path_of self filename = None →
  fs (_translate_single_file self o filename s).1.2
    !! temp_output_path_of self filename = None.
Proof.
  intros Hremove Hnone.
  destruct (translate_single_file_frame self o filename s)
    as (b & s' & tr & -> & _ & Htemp & _).
  by apply Htemp.
Qed.

(** When the text was read and translated but writing the temporary file or
    replacing the original raises: the result is [False], the one error
    signalled carries the text of that exception (also when the removal of the
    temporary file fails as well), the original is as before, and the
    temporary file is gone if its removal does not fail. *)
Theorem commit_failure_reported self o filename s text translated detail :
  read_fault o = None →
  fs s !! input_path_of self filename = Some text →
  translator_outcome self o s text = TReturn (Some translated) →
  translated ≠ "" →
  commit_fails o detail →
  ∃ (s' : World DB) tr,
    _translate_single_file self o filename s = (Ret false, s', tr)
    ∧ signals tr =
        [error_occurred ("Error al traducir " +:+ filename +:+ ": " +:+ detail)]
    ∧ fs s' !! input_path_of self filename = Some text
    ∧ (remove_fault o = None →
       fs s' !! temp_output_path_of self filename = None).
Proof.
  pose proof (temp_ne_input self filename) as Hpath.
  unfold translator_outcome, commit_fails.
  intros Hread Hfile Hout Hne [[partial Hwrite]|[Hwrite Hreplace]];
    (destruct translated as [|c translated]; [done|]);
    unfold_attempt; rewrite Hread; simpl; rewrite Hfile; simpl; rewrite Hout;
    simpl; rewrite Hwrite; simpl; rewrite ?Hreplace; simpl.
  all: repeat (case_match; simplify_eq/=).
  all: do 2 eexists; split; [reflexivity|]; simpl.
  all: split_and!; try done; try (by simplify_map_eq).
  all: try (intros ?; by simplify_map_eq).
  intros _. apply eq_None_not_Some. by eapply bool_decide_eq_false.
Qed.

(** When the read fails while a file with the temporary name exists in the
    directory (left by whoever), the attempt deletes that file, unless its
    removal fails. *)
Theorem stale_temporary_file_removed self o filename s content :
  read_fault o ≠ None ∨ fs s !! input_path_of self filename = None →
  fs s !! temp_output_path_of self filename = Some content →
  remove_fault o = None →
  ∃ (s' : World DB) tr,
    _translate_single_file self o filename s = (Ret false, s', tr)
    ∧ FsRemove (temp_output_path_of self filename) ∈ tr
    ∧ fs s' !! temp_output_path_of self filename = None.
Proof.
  intros Hread Hstale Hremove. unfold_attempt. rewrite Hremove.
  assert (Hcases : (∃ e, read_fault o = Some e)
                   ∨ (read_fault o = None
                      ∧ fs s !! input_path_of self filename = None)).
  { destruct (read_fault o) as [e|]; [left; by eexists|].
    right. by destruct Hread. }
  destruct Hcases as [[e ->]|[-> ->]]; simpl.
  all: rewrite Hstale; simpl; rewrite Hstale; simpl.
  all: do 2 eexists; (split; [reflexivity|]); simpl.
  all: split; [apply list_elem_of_further, list_elem_of_here | apply lookup_delete_eq].
Qed.

(** ** Counting in traces *)

Lemma count_calls_cons e tr :
  count_calls (e :: tr) = (if is_translate_call e then 1 else 0) + count_calls tr.
Proof.
  unfold count_calls. rewrite filter_cons.
  destruct (is_translate_call e); by case_decide.
Qed.

Lemma count_calls_app tr1 tr2 :
  count_calls (tr1 ++ tr2) = count_calls tr1 + count_calls tr2.
Proof. unfold count_calls. by rewrite filter_app, length_app. Qed.

Lemma count_sleeps_cons e tr :
  count_sleeps (e :: tr) = (if is_sleep e then 1 else 0) + count_sleeps tr.
Proof.
  unfold count_sleeps. rewrite filter_cons.
  destruct (is_sleep e); by case_decide.
Qed.

Lemma count_sleeps_app tr1 tr2 :
  count_sleeps (tr1 ++ tr2) = count_sleeps tr1 + count_sleeps tr2.
Proof. unfold count_sleeps. by rewrite filter_app, length_app. Qed.

Lemma count_success_cons e tr :
  count_success (e :: tr) = (if is_success e then 1 else 0) + count_success tr.
Proof.
  unfold count_success. rewrite filter_cons.
  destruct (is_success e); by case_decide.
Qed.

Lemma count_success_app tr1 tr2 :
  count_success (tr1 ++ tr2) = count_success tr1 + count_success tr2.
Proof. unfold count_success. by rewrite filter_app, length_app. Qed.

Lemma count_sleeps_pause (b : bool) :
  count_sleeps (if b then [Sleep 5] else []) = if b then 1 else 0.
Proof. by destruct b. Qed.

(** A trace without translator call keeps the pace, whatever came before. *)
Lemma paced_no_calls (pending : bool) tr : count_calls tr = 0 → paced pending tr = true.
Proof.
  revert pending. induction tr as [|e tr IH]; intros pending; [done|].
  rewrite count_calls_cons.
  destruct e as [sig|seconds| | | | |]; simpl; intros Hcount; try lia; apply IH; lia.
Qed.

Lemma pending_after_sleep (pending : bool) tr :
  pending_after pending (tr ++ [Sleep 5]) = false.
Proof.
  rewrite pending_after_app. simpl. apply andb_false_r.
Qed.

(** ** One iteration, further *)

(** The content of the file after a successful attempt. *)
Lemma success_file_content self o filename s s1 tr1 :
  _translate_single_file self o filename s = (Ret true, s1, tr1) →
  ∃ text translated,
    fs s !! input_path_of self filename = Some text
    ∧ translator_outcome self o s text = TReturn (Some translated)
    ∧ fs s1 !! input_path_of self filename = Some translated
    ∧ signals tr1 = []
    ∧ count_calls tr1 = 1.
Proof.
  intros Hrun.
  destruct (translate_single_file_spec self o filename s)
    as (b & s' & tr & Heq & _ & _ & _ & Hfs & _ & _ & Htrue & _).
  rewrite Hrun in Heq. simplify_eq.
  destruct Htrue as (text & translated & Hread & Hout & _ & ->); [done|].
  exists text, translated. split_and!; try done.
  rewrite Hfs. unfold fs_after. simpl. rewrite lookup_insert_eq.
  apply lookup_insert_eq.
Qed.

Ltac count_goal :=
  unfold count_calls, count_sleeps, count_success in *; simpl;
  repeat (match goal with
          | |- context [if ?b then _ else _] => destruct b
          end; simpl);
  lia.

Ltac quiet_iteration :=
  intros [= <- <- <-]; split_and!; auto; try done; try count_goal;
  try (by repeat constructor); try (intros m [= <-]; count_goal).

(** What every iteration guarantees about pace, counts and the directory. *)
Lemma body_more self env total_files i file_info n s c s1 tr :
  body self env total_files i file_info n s = (c, s1, tr) →
  paced false tr = true
  ∧ count_calls tr ≤ 1
  ∧ count_sleeps tr ≤ (if i <? total_files then 1 else 0)
  ∧ Forall (λ e, is_sleep e = true → e = Sleep 5) tr
  ∧ (∀ m, c = Ret (Next m) → pending_after false tr = true →
          _stop_requested s1 = true ∨ total_files ≤ i)
  ∧ (∀ m, c = Ret (Next m) → m = n + count_success tr)
  ∧ (∀ path,
       (∀ filename, file_info !! "name" = Some filename →
          path ≠ input_path_of self filename
          ∧ path ≠ temp_output_path_of self filename) →
       fs s1 !! path = fs s !! path).
Proof.
  rewrite body_unfold.
  destruct (_stop_requested s || stop_called env (Before i)) eqn:Htop;
    [quiet_iteration|].
  destruct (file_info !! "name") as [filename|] eqn:Hname; simpl;
    [|quiet_iteration].
  destruct (is_file_translated (db s) filename) as [[|]|e|e];
    [quiet_iteration| |quiet_iteration..].
  destruct (translate_single_file_frame self (io env i) filename
              (set_stop_requested false s))
    as (b & s2 & tr2 & Heq & Hother & _ & Hpaced & Hcalls & Hsleeps & Hsucc).
  destruct (translate_single_file_spec self (io env i) filename
              (set_stop_requested false s))
    as (b' & s2' & tr2' & Heq' & _ & _ & _ & _ & Hall & _).
  rewrite Heq in Heq'. simplify_eq. rewrite Heq.
  assert (Hfive : Forall (λ e, is_sleep e = true → e = Sleep 5) tr2').
  { eapply Forall_impl; [exact Hall|]. by intros [[]| | | | | |]. }
  assert (Hframe : ∀ path,
             (∀ f, Some filename = Some f →
                   path ≠ input_path_of self f ∧ path ≠ temp_output_path_of self f) →
             fs s2' !! path = fs s !! path).
  { intros path Hpath. destruct (Hpath filename eq_refl). by rewrite Hother. }
  set (p := Emit (progress_updated (progress_message i total_files filename))).
  set (stop := _stop_requested s2' || stop_called env (During i)).
  assert (Hfin : ∀ ok : bool,
             let tr0 := p :: (tr2' ++ [Emit (translation_completed filename ok)])
                          ++ (if (i <? total_files) && negb stop
                              then [Sleep 5] else []) in
             paced false tr0 = true
             ∧ count_calls tr0 ≤ 1
             ∧ count_sleeps tr0 ≤ (if i <? total_files then 1 else 0)
             ∧ Forall (λ e, is_sleep e = true → e = Sleep 5) tr0
             ∧ (pending_after false tr0 = true → stop = true ∨ total_files ≤ i)
             ∧ count_success tr0 = if ok then 1 else 0).
  { intros ok tr0. subst tr0. split_and!.
    - simpl. rewrite !paced_app, Hpaced. simpl.
      apply paced_no_calls. by destruct (_ && _).
    - rewrite count_calls_cons, !count_calls_app. simpl.
      assert (count_calls (if (i <? total_files) && negb stop
                           then [Sleep 5] else []) = 0) as ->
        by (by destruct (_ && _)).
      unfold count_calls at 2. simpl. lia.
    - rewrite count_sleeps_cons, !count_sleeps_app, count_sleeps_pause, Hsleeps.
      simpl. unfold count_sleeps. simpl.
      destruct (i <? total_files); simpl; [destruct (negb stop)|]; lia.
    - constructor; [done|]. rewrite !Forall_app. split_and!; [done|..].
      + by repeat constructor.
      + destruct (_ && _); by repeat constructor.
    - destruct (i <? total_files) eqn:Hlt; simpl;
        [|intros _; right; by apply Nat.ltb_ge].
      destruct stop; simpl; [intros _; by left|].
      intros Hpend. exfalso.
      change (pending_after false
                ((p :: tr2' ++ [Emit (translation_completed filename ok)])
                   ++ [Sleep 5]) = true) in Hpend.
      by rewrite pending_after_sleep in Hpend.
    - rewrite count_success_cons, !count_success_app, Hsucc. simpl.
      assert (count_success (if (i <? total_files) && negb stop
                             then [Sleep 5] else []) = 0) as ->
        by (by destruct (_ && _)).
      unfold count_success. simpl. destruct ok; simpl; lia. }
  destruct b' as [[|]|e|e];
    [destruct (add_translation_record (db s2') filename (source_lang self)
                 (target_lang self)) as [d|e|e]| | |].
  2,3,5,6: intros [= <- <- <-]; subst p;
    split_and!; try done; try (by constructor); try (by apply Hframe);
    rewrite count_sleeps_cons, Hsleeps; simpl; lia.
  - intros [= <- <- <-].
    destruct (Hfin true) as (H1 & H2 & H3 & H4 & H5 & H6).
    split_and!; try done; try (intros m _; exact H5);
      try (intros m [= <-]; rewrite H6; lia); by apply Hframe.
  - intros [= <- <- <-].
    destruct (Hfin false) as (H1 & H2 & H3 & H4 & H5 & H6).
    split_and!; try done; try (intros m _; exact H5);
      try (intros m [= <-]; rewrite H6; lia); by apply Hframe.
Qed.

(** ** The loop and the run, further *)

Lemma loop_more self env total_files files :
  ∀ i n s r s' tr,
    loop self env total_files i files n s = (r, s', tr) →
    (i + length files ≤ S total_files → paced false tr = true)
    ∧ count_calls tr ≤ length files
    ∧ count_sleeps tr ≤ length files `min` (total_files - i)
    ∧ Forall (λ e, is_sleep e = true → e = Sleep 5) tr
    ∧ (∀ m, r = Ret m → m = n + count_success tr)
    ∧ (∀ path,
         (∀ file_info filename, file_info ∈ files →
            file_info !! "name" = Some filename →
            path ≠ input_path_of self filename
            ∧ path ≠ temp_output_path_of self filename) →
         fs s' !! path = fs s !! path).
Proof.
  induction files as [|file_info rest IH]; intros i n s r s' tr.
  { intros [= <- <- <-]. split_and!; try done; try apply Nat.le_0_l.
    intros m [= <-]. unfold count_success. simpl. lia. }
  rewrite loop_cons.
  destruct (body self env total_files i file_info n s) as [[c s1] tr1] eqn:Hbody.
  pose proof (body_facts _ _ _ _ _ _ _ _ _ _ Hbody) as (_ & _ & _ & _ & Hbreak).
  apply body_more in Hbody
    as (Hpaced1 & Hcalls1 & Hsleeps1 & Hfive1 & Hpend1 & Hcount1 & Hfs1).
  assert (Hhere : ∀ path,
             (∀ fi filename, fi ∈ file_info :: rest →
                fi !! "name" = Some filename →
                path ≠ input_path_of self filename
                ∧ path ≠ temp_output_path_of self filename) →
             fs s1 !! path = fs s !! path).
  { intros path Hpath. apply Hfs1. intros filename Hname.
    eapply Hpath; [apply list_elem_of_here | done]. }
  destruct c as [[|n']|e|e].
  3,4: intros [= <- <- <-]; split_and!; try done; try (by apply Hhere);
    simpl length; try lia;
    destruct (i <? total_files) eqn:Hlt;
    [apply Nat.ltb_lt in Hlt | apply Nat.ltb_ge in Hlt]; lia.
  - destruct Hbreak as (_ & -> & ->); [by right|].
    intros [= <- <- <-]. split_and!; try done; try apply Nat.le_0_l;
      try (intros m [= <-]; unfold count_success; simpl; lia).
  - destruct (loop self env total_files (S i) rest n' s1) as [[r2 s2] tr2] eqn:Hrest.
    pose proof Hrest as Hrest'.
    apply IH in Hrest as (Hpaced2 & Hcalls2 & Hsleeps2 & Hfive2 & Hcount2 & Hfs2).
    intros [= <- <- <-]. split_and!.
    + intros Hlen. simpl in Hlen. rewrite paced_app, Hpaced1. simpl.
      destruct (pending_after false tr1) eqn:Hpend; [|apply Hpaced2; lia].
      destruct (Hpend1 n' eq_refl eq_refl) as [Hset|Hlast].
      * rewrite loop_stopped in Hrest' by done. by simplify_eq.
      * destruct rest as [|file_info2 rest]; [|simpl in Hlen; lia].
        simpl in Hrest'. unfold ret in Hrest'. by simplify_eq.
    + rewrite count_calls_app. simpl. lia.
    + rewrite count_sleeps_app. simpl length.
      destruct (i <? total_files) eqn:Hlt;
        [apply Nat.ltb_lt in Hlt | apply Nat.ltb_ge in Hlt]; lia.
    + by apply Forall_app_2.
    + intros m Hm. rewrite count_success_app.
      rewrite (Hcount2 m Hm), (Hcount1 n' eq_refl). lia.
    + intros path Hpath. rewrite Hfs2; [by apply Hhere|].
      intros fi filename Hin Hname. eapply Hpath; [|done].
      by apply list_elem_of_further.
Qed.

(** ** Where exceptions come from *)

(** An iteration raises an [Exception] only for an entry without [name], for
    an exception of [is_file_translated] or for one of
    [add_translation_record]. *)
Lemma body_raise_source self env total_files i file_info n s e s1 tr :
  body self env total_files i file_info n s = (Raise e, s1, tr) →
  (file_info !! "name" = None ∧ e = "'name'")
  ∨ ∃ filename,
      file_info !! "name" = Some filename
      ∧ (is_file_translated (db s) filename = Raise e
         ∨ (is_file_translated (db s) filename = Ret false
            ∧ add_translation_record (db s) filename (source_lang self)
                (target_lang self) = Raise e)).
Proof.
  rewrite body_unfold.
  destruct (_stop_requested s || stop_called env (Before i)); [done|].
  destruct (file_info !! "name") as [filename|]; simpl;
    [|intros [= <- <- <-]; by left].
  intros Hbody. right. exists filename. split; [done|].
  destruct (is_file_translated (db s) filename) as [[|]|e0|e0];
    [done| |left; by simplify_eq|done].
  right. split; [done|].
  destruct (translate_single_file_spec self (io env i) filename
              (set_stop_requested false s))
    as (r & s2 & tr2 & Heq & Hdb & _ & _ & _ & _ & _ & _ & Hraise & _).
  rewrite Heq in Hbody. simpl in Hdb. rewrite Hdb in Hbody.
  destruct r as [[|]|e0|e0]; [|done|by destruct (Hraise e0)|done].
  destruct (add_translation_record (db s) filename (source_lang self)
              (target_lang self)); by simplify_eq.
Qed.

(** What leaves an iteration and is no [Exception] was raised by the
    translator or by the store. *)
Lemma body_abort_source self env total_files i file_info n s e s1 tr :
  body self env total_files i file_info n s = (Abort e, s1, tr) →
  ∃ filename,
    file_info !! "name" = Some filename
    ∧ (is_file_translated (db s) filename = Abort e
       ∨ (is_file_translated (db s) filename = Ret false
          ∧ ((∃ text,
                read_fault (io env i) = None
                ∧ fs s !! input_path_of self filename = Some text
                ∧ translator_outcome self (io env i) s text = TAbort e)
             ∨ add_translation_record (db s) filename (source_lang self)
                 (target_lang self) = Abort e))).
Proof.
  rewrite body_unfold.
  destruct (_stop_requested s || stop_called env (Before i)); [done|].
  destruct (file_info !! "name") as [filename|]; simpl; [|done].
  intros Hbody. exists filename. split; [done|].
  destruct (is_file_translated (db s) filename) as [[|]|e0|e0];
    [done| |done|left; by simplify_eq].
  right. split; [done|].
  destruct (translate_single_file_spec self (io env i) filename
              (set_stop_requested false s))
    as (r & s2 & tr2 & Heq & Hdb & _ & _ & _ & _ & _ & _ & Hraise & Habort).
  rewrite Heq in Hbody. simpl in Hdb. rewrite Hdb in Hbody.
  destruct r as [[|]|e0|e0]; [|done|done|].
  - right.
    destruct (add_translation_record (db s) filename (source_lang self)
                (target_lang self)); by simplify_eq.
  - left. simplify_eq.
    destruct (Habort e eq_refl) as (text & Hread & Hfile & Hout & _).
    by exists text.
Qed.

Lemma loop_abort_source self env total_files files :
  ∀ i n s e s' tr,
    loop self env total_files i files n s = (Abort e, s', tr) →
    ¬ only_exceptions (DB := DB) env.
Proof.
  induction files as [|file_info rest IH]; intros i n s e s' tr; [done|].
  rewrite loop_cons.
  destruct (body self env total_files i file_info n s) as [[c s1] tr1] eqn:Hbody.
  destruct c as [[|n']|e0|e0]; [done| |done|].
  - destruct (loop self env total_files (S i) rest n' s1)
      as [[r2 s2] tr2] eqn:Hrest.
    intros [= -> <- <-]. by eapply IH.
  - intros [= -> <- <-] (Htranslator & Hquery & Hrecord).
    apply body_abort_source in Hbody
      as (filename & _ & [Habort|[_ [(text & _ & _ & Habort)|Habort]]]).
    + by eapply Hquery.
    + by eapply Htranslator.
    + by eapply Hrecord.
Qed.

(** No [Exception] leaves [run] (line 78 is [except Exception]), and however
    [run] ends, the last thing it does is to emit
    [all_translations_completed].  When neither the translator nor the store
    raises anything that is no [Exception], [run] returns. *)
Theorem run_catches_exceptions self env s :
  (∀ e, (run self env s).1.1 ≠ Raise e)
  ∧ last (run self env s).2 = Some (Emit all_translations_completed)
  ∧ (only_exceptions (DB := DB) env → (run self env s).1.1 = Ret tt).
Proof.
  rewrite run_unfold. simpl.
  destruct (loop self env _ 1 _ 0 (start self s)) as [[[n|e|e] s1] tr] eqn:Hloop;
    [destruct (_stop_requested s1 || stop_called env AfterLoop)| |]; simpl.
  - split_and!; [done| |done]. by rewrite last_snoc.
  - split_and!; [done| |done].
    assert (∀ x y z : Effect, tr ++ [x; y; z] = (tr ++ [x; y]) ++ [z]) as ->
      by (intros; by rewrite <- app_assoc).
    by rewrite last_snoc.
  - split_and!; [done| |done].
    assert (∀ x y : Effect, tr ++ [x; y] = (tr ++ [x]) ++ [y]) as ->
      by (intros; by rewrite <- app_assoc).
    by rewrite last_snoc.
  - split_and!; [done| |].
    + by rewrite last_snoc.
    + intros Honly. by apply loop_abort_source in Hloop.
Qed.

(** In a run, no translator call comes before the previous one is followed
    by a pause of 5 seconds. *)
Theorem translator_calls_paced self env s :
  paced false (run self env s).2 = true.
Proof.
  rewrite run_unfold. simpl.
  destruct (loop self env _ 1 _ 0 (start self s)) as [[r s1] tr] eqn:Hloop.
  apply loop_more in Hloop as (Hpaced & _).
  specialize (Hpaced ltac:(lia)).
  destruct r as [n|e|e];
    [destruct (_stop_requested s1 || stop_called env AfterLoop)| |]; simpl;
    rewrite paced_app, Hpaced; done.
Qed.


(** When a run completes unstopped, the summary it emits gives the number of
    [translation_completed(_, True)] signals emitted before it and the number
    of files of the batch. *)
Theorem summary_counts_successes self env s :
  completes_unstopped self env s = true →
  ∃ tr0,
    (run self env s).2 =
      tr0 ++ [Emit (progress_updated
                      (final_message (count_success tr0)
                         (length (files_to_translate self))));
              Emit all_translations_completed;
              Emit all_translations_completed]
    ∧ count_success (run self env s).2 = count_success tr0.
Proof.
  unfold completes_unstopped. rewrite run_unfold. simpl.
  destruct (loop self env _ 1 _ 0 (start self s)) as [[r s1] tr] eqn:Hloop.
  apply loop_more in Hloop as (_ & _ & _ & _ & Hcount & _).
  destruct r as [n|e|e]; [|done..].
  destruct (_stop_requested s1 || stop_called env AfterLoop); [done|].
  intros _. exists tr. simpl. rewrite (Hcount n eq_refl). simpl.
  split; [done|]. rewrite count_success_app. unfold count_success at 2. simpl. lia.
Qed.

(** A run leaves every path alone that is neither the path nor the temporary
    path of a file of the batch. *)
Theorem run_touches_batch_files_only self env s path :
  ¬ batch_path self path →
  fs (run self env s).1.2 !! path = fs s !! path.
Proof.
  intros Hpath. rewrite run_unfold. simpl.
  destruct (loop self env _ 1 _ 0 (start self s)) as [[r s1] tr] eqn:Hloop.
  apply loop_more in Hloop as (_ & _ & _ & _ & _ & Hfs).
  assert (Hstart : fs (start self s) = fs s)
    by (unfold start; by destruct (segment_size self)).
  assert (Hkeep : fs s1 !! path = fs s !! path).
  { rewrite Hfs, Hstart; [done|]. intros fi filename Hin Hname.
    split; intros ->; apply Hpath; exists fi, filename; auto. }
  destruct r as [n|e|e];
    [destruct (_stop_requested s1 || stop_called env AfterLoop)| |]; done.
Qed.

(** ** Exceptions at the level of the batch *)

(** An exception in the iteration for one file ends the run: what the files
    before it produced, the error, [all_translations_completed], and nothing
    for the files after it. *)
Lemma run_abort self env s pre file_info rest n1 s1 tr1 e s2 tr2 :
  files_to_translate self = pre ++ file_info :: rest →
  loop self env (length (files_to_translate self)) 1 pre 0 (start self s)
    = (Ret n1, s1, tr1) →
  body self env (length (files_to_translate self)) (S (length pre)) file_info
    n1 s1 = (Raise e, s2, tr2) →
  run self env s =
    (Ret tt, s2,
     tr1 ++ tr2 ++
       [Emit (error_occurred ("Error en el proceso de traducción: " +:+ e));
        Emit all_translations_completed]).
Proof.
  intros Hfiles Hpre Hbody. rewrite run_unfold. simpl.
  rewrite Hfiles at 2. rewrite loop_app, Hpre, loop_cons. simpl.
  rewrite Hbody. by rewrite <- app_assoc.
Qed.

(** A file entry without the key [name] ends the run with the error
    ['name'] (the text of the [KeyError]); the files after it are not looked
    at, no summary is emitted. *)
Theorem missing_name_aborts self env s pre file_info rest n1 s1 tr1 :
  files_to_translate self = pre ++ file_info :: rest →
  loop self env (length (files_to_translate self)) 1 pre 0 (start self s)
    = (Ret n1, s1, tr1) →
  _stop_requested s1 = false →
  stop_called env (Before (S (length pre))) = false →
  file_info !! "name" = None →
  run self env s =
    (Ret tt, s1,
     tr1 ++ [Emit (error_occurred "Error en el proceso de traducción: 'name'");
             Emit all_translations_completed]).
Proof.
  intros Hfiles Hpre Hflag Hbefore Hname.
  erewrite run_abort; [|done|done|].
  2:{ rewrite body_unfold, Hflag, Hbefore, Hname. simpl. reflexivity. }
  simpl. by rewrite <- Hflag, set_stop_requested_id.
Qed.

(** An iteration raises an [Exception] only for an entry without [name], for
    an exception of [is_file_translated] or for one of
    [add_translation_record]: no [Exception] raised inside the attempt on the
    file ends the batch.  What leaves the iteration otherwise is what the
    translator or the store raised that is no [Exception]. *)
Theorem body_raises_only_outside_attempt self env total_files i file_info n s
    e s1 tr :
  (body self env total_files i file_info n s = (Raise e, s1, tr) →
   (file_info !! "name" = None ∧ e = "'name'")
   ∨ ∃ filename,
       file_info !! "name" = Some filename
       ∧ (is_file_translated (db s) filename = Raise e
          ∨ (is_file_translated (db s) filename = Ret false
             ∧ add_translation_record (db s) filename (source_lang self)
                 (target_lang self) = Raise e)))
  ∧ (body self env total_files i file_info n s = (Abort e, s1, tr) →
     ∃ filename,
       file_info !! "name" = Some filename
       ∧ (is_file_translated (db s) filename = Abort e
          ∨ (is_file_translated (db s) filename = Ret false
             ∧ ((∃ text,
                   read_fault (io env i) = None
                   ∧ fs s !! input_path_of self filename = Some text
                   ∧ translator_outcome self (io env i) s text = TAbort e)
                ∨ add_translation_record (db s) filename (source_lang self)
                    (target_lang self) = Abort e)))).
Proof.
  split; [apply body_raise_source | apply body_abort_source].
Qed.

(** When the file was translated and replaced but writing the record raises:
    the iteration raises with that exception, the file already holds the
    translation, and no [translation_completed] is emitted for the file. *)
Theorem record_failure_after_commit self env total_files i file_info n s
    filename s1 tr1 e :
  _stop_requested s = false →
  stop_called env (Before i) = false →
  file_info !! "name" = Some filename →
  is_file_translated (db s) filename = Ret false →
  _translate_single_file self (io env i) filename s = (Ret true, s1, tr1) →
  add_translation_record (db s) filename (source_lang self) (target_lang self)
    = Raise e →
  ∃ translated,
    body self env total_files i file_info n s =
      (Raise e, s1,
       Emit (progress_updated (progress_message i total_files filename)) :: tr1)
    ∧ fs s1 !! input_path_of self filename = Some translated
    ∧ signals tr1 = [].
Proof.
  intros Hflag Hbefore Hname Hnew Hrun Hadd.
  destruct (success_file_content _ _ _ _ _ _ Hrun)
    as (text & translated & _ & _ & Hfile & Hsig & _).
  destruct (translate_single_file_spec self (io env i) filename s)
    as (b & s2 & tr2 & Heq & Hdb & _).
  rewrite Hrun in Heq. simplify_eq.
  exists translated. split_and!; try done.
  rewrite body_unfold, Hflag, Hbefore, Hname. simpl. rewrite Hnew.
  rewrite <- Hflag at 1. rewrite set_stop_requested_id, Hrun, Hdb, Hadd. done.
Qed.

(** When the file was translated and replaced and the record is written: the
    iteration signals the progress message and [translation_completed(name,
    True)], the store is the one [add_translation_record] returned for the
    file name and the language pair of the batch, the counter goes up by
    one and the file holds the translation. *)
Theorem successful_file_recorded self env total_files i file_info n s
    filename s1 tr1 d :
  _stop_requested s = false →
  stop_called env (Before i) = false →
  file_info !! "name" = Some filename →
  is_file_translated (db s) filename = Ret false →
  _translate_single_file self (io env i) filename s = (Ret true, s1, tr1) →
  add_translation_record (db s) filename (source_lang self) (target_lang self)
    = Ret d →
  ∃ (s2 : World DB) tr translated,
    body self env total_files i file_info n s = (Ret (Next (S n)), s2, tr)
    ∧ db s2 = d
    ∧ fs s2 !! input_path_of self filename = Some translated
    ∧ translator_outcome self (io env i) s
        (default "" (fs s !! input_path_of self filename))
      = TReturn (Some translated)
    ∧ signals tr =
        [progress_updated (progress_message i total_files filename);
         translation_completed filename true].
Proof.
  intros Hflag Hbefore Hname Hnew Hrun Hadd.
  destruct (success_file_content _ _ _ _ _ _ Hrun)
    as (text & translated & Hread & Hout & Hfile & Hsig & _).
  destruct (translate_single_file_spec self (io env i) filename s)
    as (b & s2 & tr2 & Heq & Hdb & _).
  rewrite Hrun in Heq. simplify_eq.
  eexists _, _, translated. split.
  { rewrite body_unfold, Hflag, Hbefore, Hname. simpl. rewrite Hnew.
    rewrite <- Hflag at 1. rewrite set_stop_requested_id, Hrun, Hdb, Hadd.
    reflexivity. }
  split_and!; try done.
  - by rewrite Hread.
  - simpl. rewrite !signals_app, Hsig. simpl. by destruct (_ && _).
Qed.

(** ** What is recorded is not translated again *)

Ltac empty_trace :=
  intros;
  match goal with
  | Hin : _ ∈ [] |- _ => by apply elem_of_nil in Hin
  end.

Lemma body_records self env total_files i file_info n s c s1 tr :
  store_keeps_records (DB := DB) →
  body self env total_files i file_info n s = (c, s1, tr) →
  (∀ name, is_file_translated (db s) name = Ret true →
           is_file_translated (db s1) name = Ret true)
  ∧ (∀ name, Emit (translation_completed name true) ∈ tr →
             is_file_translated (db s1) name = Ret true)
  ∧ (∀ name ok, Emit (translation_completed name ok) ∈ tr →
                is_file_translated (db s) name = Ret false).
Proof.
  intros [Hadd Hkeep]. rewrite body_unfold.
  destruct (_stop_requested s || stop_called env (Before i));
    [intros [= <- <- <-]; split_and!; [done|empty_trace..]|].
  destruct (file_info !! "name") as [filename|]; simpl;
    [|intros [= <- <- <-]; split_and!; [done|empty_trace..]].
  destruct (is_file_translated (db s) filename) as [[|]|e|e] eqn:Hnew.
  1,3,4: intros [= <- <- <-]; (split_and!; [done|..]);
    [intros name Hin; trace_member Hin | intros name ok Hin; trace_member Hin].
  destruct (translate_single_file_spec self (io env i) filename
              (set_stop_requested false s))
    as (b & s2 & tr2 & Heq & Hdb & _ & _ & _ & Hall & _).
  rewrite Heq. simpl in Hdb.
  destruct b as [[|]|e|e];
    [destruct (add_translation_record (db s2) filename (source_lang self)
                 (target_lang self)) as [d|e|e] eqn:Hrecord| | |].
  2,3,5,6: intros [= <- <- <-]; rewrite Hdb; (split_and!; [done|..]);
    [intros name Hin; trace_member Hin | intros name ok Hin; trace_member Hin].
  - intros [= <- <- <-]. simpl. rewrite Hdb in Hrecord. split_and!.
    + intros name Hname. by eapply Hkeep.
    + intros name Hin. trace_member Hin. by eapply Hadd.
    + intros name ok Hin. by trace_member Hin.
  - intros [= <- <- <-]. simpl. rewrite Hdb. split_and!; [done|..].
    + intros name Hin. trace_member Hin.
    + intros name ok Hin. by trace_member Hin.
Qed.

Lemma loop_records self env total_files files :
  store_keeps_records (DB := DB) →
  ∀ i n s r s' tr,
    loop self env total_files i files n s = (r, s', tr) →
    (∀ name, is_file_translated (db s) name = Ret true →
             is_file_translated (db s') name = Ret true)
    ∧ (∀ name, Emit (translation_completed name true) ∈ tr →
               is_file_translated (db s') name = Ret true)
    ∧ (∀ name ok, Emit (translation_completed name ok) ∈ tr →
                  is_file_translated (db s) name ≠ Ret true).
Proof.
  intros Hstore.
  induction files as [|file_info rest IH]; intros i n s r s' tr.
  { intros [= <- <- <-]. split_and!; [done|empty_trace..]. }
  rewrite loop_cons.
  destruct (body self env total_files i file_info n s) as [[c s1] tr1] eqn:Hbody.
  apply (body_records _ _ _ _ _ _ _ _ _ _ Hstore) in Hbody
    as (Hkeep1 & Hdone1 & Hnew1).
  destruct c as [[|n']|e|e].
  1,3,4: intros [= <- <- <-]; (split_and!; [done|done|]);
    intros name ok Hin Htrue; apply Hnew1 in Hin; congruence.
  - destruct (loop self env total_files (S i) rest n' s1) as [[r2 s2] tr2] eqn:Hrest.
    apply IH in Hrest as (Hkeep2 & Hdone2 & Hnew2).
    intros [= <- <- <-]. split_and!.
    + intros name Hname. by apply Hkeep2, Hkeep1.
    + intros name [Hin|Hin]%elem_of_app; [by apply Hkeep2, Hdone1 | by apply Hdone2].
    + intros name ok [Hin|Hin]%elem_of_app Htrue.
      * apply Hnew1 in Hin. congruence.
      * by apply (Hnew2 name ok Hin), Hkeep1.
Qed.

Lemma run_records self env s :
  store_keeps_records (DB := DB) →
  (∀ name, Emit (translation_completed name true) ∈ (run self env s).2 →
           is_file_translated (db (run self env s).1.2) name = Ret true)
  ∧ (∀ name ok, Emit (translation_completed name ok) ∈ (run self env s).2 →
                is_file_translated (db s) name ≠ Ret true).
Proof.
  intros Hstore. rewrite run_unfold. simpl.
  destruct (loop self env _ 1 _ 0 (start self s)) as [[r s1] tr] eqn:Hloop.
  apply (loop_records _ _ _ _ Hstore) in Hloop as (_ & Hdone & Hnew).
  assert (Hstart : db (start self s) = db s)
    by (unfold start; by destruct (segment_size self)).
  rewrite Hstart in Hnew.
  destruct r as [m|e|e];
    [destruct (_stop_requested s1 || stop_called env AfterLoop)| |]; simpl.
  all: split; [intros name Hin | intros name ok Hin].
  all: apply elem_of_app in Hin as [Hin|Hin]; eauto.
  all: trace_member Hin.
Qed.

(** With a store that keeps its records: a file for which a run signalled
    [translation_completed(name, True)] is recorded in the store the run
    leaves, and no later run on that store, of whatever batch, attempts it
    again. *)
Theorem translated_file_never_attempted_again self env s name :
  store_keeps_records (DB := DB) →
  Emit (translation_completed name true) ∈ (run self env s).2 →
  is_file_translated (db (run self env s).1.2) name = Ret true
  ∧ ∀ self2 env2 (s2 : World DB) ok,
      db s2 = db (run self env s).1.2 →
      Emit (translation_completed name ok) ∉ (run self2 env2 s2).2.
Proof.
  intros Hstore Hin.
  destruct (run_records self env s Hstore) as [Hdone _].
  split; [by apply Hdone|].
  intros self2 env2 s2 ok Hdb Hin2.
  destruct (run_records self2 env2 s2 Hstore) as [_ Hnew].
  apply (Hnew name ok Hin2). rewrite Hdb. by apply Hdone.
Qed.

(** ** A stop request while a file is processed *)

Ltac no_pause Hsleeps :=
  split_and!; try done;
  try (exists []; split; [simpl; by rewrite !app_nil_r | by left]);
  try (intros _; by rewrite count_sleeps_cons, Hsleeps).

(** A call of [stop] while file [i] is processed does not interrupt it: the
    iteration returns the same, leaves the same directory and the same store
    and has the same effects as without the call, up to the pause at its end,
    which the call cancels. *)
Theorem stop_does_not_interrupt_file self env total_files i file_info n s :
  _stop_requested s = false →
  stop_called env (Before i) = false →
  (body self env total_files i file_info n s).1.1
    = (body self (no_stops env) total_files i file_info n s).1.1
  ∧ fs (body self env total_files i file_info n s).1.2
    = fs (body self (no_stops env) total_files i file_info n s).1.2
  ∧ db (body self env total_files i file_info n s).1.2
    = db (body self (no_stops env) total_files i file_info n s).1.2
  ∧ (∃ pause,
       (body self (no_stops env) total_files i file_info n s).2
         = (body self env total_files i file_info n s).2 ++ pause
       ∧ (pause = [] ∨ pause = [Sleep 5]))
  ∧ (stop_called env (During i) = true →
     count_sleeps (body self env total_files i file_info n s).2 = 0).
Proof.
  intros Hflag Hbefore. rewrite !body_unfold, Hflag, Hbefore. simpl.
  destruct (file_info !! "name") as [filename|]; simpl.
  2:{ split_and!; try done. exists []. by split; [|left]. }
  destruct (is_file_translated (db s) filename) as [[|]|e|e]; simpl.
  1,3,4: split_and!; try done; exists []; by split; [|left].
  destruct (translate_single_file_frame self (io env i) filename
              (set_stop_requested false s))
    as (b & s1 & tr1 & Heq & _ & _ & _ & _ & Hsleeps & _).
  destruct (translate_single_file_spec self (io env i) filename
              (set_stop_requested false s))
    as (b' & s1' & tr1' & Heq' & _ & Hstop & _).
  rewrite Heq in Heq'. simplify_eq. rewrite Heq. simpl in Hstop.
  assert (Hpause : ∀ ok : bool,
             (∃ pause,
                Emit (progress_updated (progress_message i total_files filename))
                  :: (tr1' ++ [Emit (translation_completed filename ok)])
                  ++ (if (i <? total_files) && true then [Sleep 5] else [])
                = (Emit (progress_updated
                           (progress_message i total_files filename))
                     :: (tr1' ++ [Emit (translation_completed filename ok)])
                     ++ (if (i <? total_files)
                            && negb (stop_called env (During i))
                         then [Sleep 5] else []))
                  ++ pause
                ∧ (pause = [] ∨ pause = [Sleep 5]))
             ∧ (stop_called env (During i) = true →
                count_sleeps
                  (Emit (progress_updated
                           (progress_message i total_files filename))
                     :: (tr1' ++ [Emit (translation_completed filename ok)])
                     ++ (if (i <? total_files)
                            && negb (stop_called env (During i))
                         then [Sleep 5] else [])) = 0)).
  { intros ok. split.
    - destruct (i <? total_files), (stop_called env (During i)); simpl.
      + exists [Sleep 5]. split; [|by right].
        simpl; by rewrite !app_nil_r.
      + exists []. split; [|by left]. simpl; by rewrite !app_nil_r.
      + exists []. split; [|by left]. simpl; by rewrite !app_nil_r.
      + exists []. split; [|by left]. simpl; by rewrite !app_nil_r.
    - intros ->. rewrite andb_false_r, app_nil_r.
      rewrite count_sleeps_cons, count_sleeps_app, Hsleeps. done. }
  destruct b' as [[|]|e|e];
    [destruct (add_translation_record (db s1') filename (source_lang self)
                 (target_lang self)) as [d|e|e]| | |];
    simpl; rewrite ?Hstop; simpl.
  - destruct (Hpause true) as [Hex Hcount]. by split_and!.
  - no_pause Hsleeps.
  - no_pause Hsleeps.
  - destruct (Hpause false) as [Hex Hcount]. by split_and!.
  - no_pause Hsleeps.
  - no_pause Hsleeps.
Qed.

End WorkerFacts.

(** ** The manager *)

Section ManagerFacts.
Context {DB : Type} `{RecordStore DB}.

(** C8.  [translate_files] on a manager on which [initialize] was never
    called (no directory, no store): one [ErrorOccurred], and nothing else: the
    manager is as before (no terms saved, no worker), no thread is started. *)
Theorem translate_files_before_initialize (self : Manager.TranslationManager DB)
    files source target key status_callback terms seg :
  Manager.working_directory self = None →
  Manager.db self = None →
  Manager.translate_files self files source target key status_callback terms seg
  = (Ret tt, self,
     [Emit (error_occurred "No se ha inicializado el directorio de trabajo")]).
Proof.
  intros Hdir Hdb. unfold Manager.translate_files. by rewrite Hdir.
Qed.


(** ** Further properties of the manager *)

(** What [translate_files] returns when it gets past its test of line 172. *)
Lemma translate_files_started (self : Manager.TranslationManager DB)
    directory d d' files source target key status_callback terms seg :
  Manager.working_directory self = Some directory →
  directory ≠ "" →
  Manager.db self = Some d →
  (if Manager.strip_truthy terms then save_custom_terms d terms else Ret d)
    = Ret d' →
  Manager.translate_files self files source target key status_callback terms seg
  = (Ret tt,
     {| Manager.translator_segment_size := seg;
        Manager.db := Some d';
        Manager.working_directory := Some directory;
        Manager.current_provider := Manager.current_provider self;
        Manager.current_model := Manager.current_model self;
        Manager.worker := Some
          {| Worker.files_to_translate := files;
             Worker.working_directory := directory;
             Worker.source_lang := source; Worker.target_lang := target;
             Worker.api_key := key;
             Worker.provider := Manager.current_provider self;
             Worker.model := Manager.current_model self;
             Worker.custom_terms := terms;
             Worker.segment_size := seg |};
        Manager.worker_stop_requested := false;
        Manager.status_callback_connected := status_callback |},
     [ThreadStart]).
Proof.
  intros Hdir Hne Hdb Hsave. unfold Manager.translate_files.
  rewrite Hdir, Hdb, bool_decide_eq_false_2 by done. by rewrite Hsave.
Qed.

(** [translate_files] starts a thread only together with a new worker whose
    stop flag is down. *)
Lemma translate_files_thread (self : Manager.TranslationManager DB)
    files source target key status_callback terms seg self1 :
  Manager.translate_files self files source target key status_callback terms seg
    = (Ret tt, self1, [ThreadStart]) →
  ∃ directory d,
    Manager.db self1 = Some d
    ∧ Manager.translator_segment_size self1 = seg
    ∧ Manager.worker_stop_requested self1 = false
    ∧ Manager.worker self1 = Some
        {| Worker.files_to_translate := files;
           Worker.working_directory := directory;
           Worker.source_lang := source; Worker.target_lang := target;
           Worker.api_key := key;
           Worker.provider := Manager.current_provider self;
           Worker.model := Manager.current_model self;
           Worker.custom_terms := terms;
           Worker.segment_size := seg |}.
Proof.
  unfold Manager.translate_files.
  destruct (Manager.working_directory self) as [directory|]; [|done].
  destruct (Manager.db self) as [d|]; [|done].
  case_bool_decide; [done|].
  destruct (if Manager.strip_truthy terms then _ else _) as [d'|e|e];
    [|done..].
  intros [= <-]. by exists directory, d'.
Qed.

(** [initialize] with the empty string as directory leaves the manager
    uninitialised for [translate_files], whether or not the store could be
    opened: the error is signalled, the manager stays as it is and nothing is
    started. *)
Theorem empty_directory_not_initialized (self : Manager.TranslationManager DB)
    prov mdl opened files source target key status_callback terms seg :
  Manager.translate_files (Manager.initialize self "" prov mdl opened).2
    files source target key status_callback terms seg
  = (Ret tt, (Manager.initialize self "" prov mdl opened).2,
     [Emit (error_occurred "No se ha inicializado el directorio de trabajo")]).
Proof.
  unfold Manager.translate_files.
  destruct opened as [d|e|e]; simpl; [done|..]; by destruct (Manager.db self).
Qed.

(** When the store cannot be opened on a manager that has none, [initialize]
    raises, and [translate_files] afterwards signals that the directory is not
    initialised and starts nothing, although the directory is set. *)
Theorem failed_first_initialize_not_initialized
    (self : Manager.TranslationManager DB) directory prov mdl e
    files source target key status_callback terms seg :
  Manager.db self = None →
  (Manager.initialize self directory prov mdl (Raise e)).1 = Raise e
  ∧ Manager.working_directory
      (Manager.initialize self directory prov mdl (Raise e)).2 = Some directory
  ∧ Manager.translate_files
      (Manager.initialize self directory prov mdl (Raise e)).2
      files source target key status_callback terms seg
    = (Ret tt, (Manager.initialize self directory prov mdl (Raise e)).2,
       [Emit (error_occurred "No se ha inicializado el directorio de trabajo")]).
Proof.
  intros Hdb. split_and!; [done..|].
  unfold Manager.translate_files. simpl. by rewrite Hdb.
Qed.

(** When the store cannot be opened on a manager that is bound already,
    [initialize] raises having set the new directory, and keeps the store,
    provider and model it had: [translate_files] afterwards starts a worker on
    the new directory with the store of the old one. *)
Theorem failed_initialize_keeps_old_store
    (self : Manager.TranslationManager DB) directory prov mdl e d
    files source target key status_callback seg :
  Manager.db self = Some d →
  directory ≠ "" →
  (Manager.initialize self directory prov mdl (Raise e)).1 = Raise e
  ∧ ∃ self' w,
      Manager.translate_files
        (Manager.initialize self directory prov mdl (Raise e)).2
        files source target key status_callback "" seg
      = (Ret tt, self', [ThreadStart])
      ∧ Manager.worker self' = Some w
      ∧ Worker.working_directory w = directory
      ∧ Worker.provider w = Manager.current_provider self
      ∧ Worker.model w = Manager.current_model self
      ∧ ∀ files_on_disk,
          Manager.worker_world self' files_on_disk
          = Some (Worker.mkWorld files_on_disk d seg false).
Proof.
  intros Hdb Hne. split; [done|].
  eexists _, _. split.
  { by apply (translate_files_started _ directory d d). }
  by split_and!.
Qed.

(** When saving the custom terms raises, [translate_files] raises that
    exception before anything is started: no signal, no thread, the worker of
    the manager (if any) and the translator's setting are as before.  The
    statement is for terms in the ASCII range. *)
Theorem save_terms_failure_starts_nothing
    (self : Manager.TranslationManager DB) directory d
    files source target key status_callback terms seg e :
  Manager.working_directory self = Some directory →
  directory ≠ "" →
  Manager.db self = Some d →
  is_ascii terms = true →
  Manager.strip_truthy terms = true →
  save_custom_terms d terms = Raise e →
  ∃ self',
    Manager.translate_files self files source target key status_callback terms
      seg = (Raise e, self', [])
    ∧ Manager.worker self' = Manager.worker self
    ∧ Manager.worker_stop_requested self' = Manager.worker_stop_requested self
    ∧ Manager.translator_segment_size self'
      = Manager.translator_segment_size self.
Proof.
  intros Hdir Hne Hdb _ Hterms Hsave. exists self.
  unfold Manager.translate_files.
  rewrite Hdir, Hdb, bool_decide_eq_false_2 by done.
  by rewrite Hterms, Hsave.
Qed.

(** Custom terms of white space only, that is of characters [str.strip]
    removes (those of [str.isspace], U+00A0 and U+3000 among them), are not
    saved (the store is not called, so it cannot fail either), but are handed
    to the worker as they are. *)
Theorem blank_terms_not_saved (self : Manager.TranslationManager DB)
    directory d files source target key status_callback terms seg :
  Manager.working_directory self = Some directory →
  directory ≠ "" →
  Manager.db self = Some d →
  Manager.strip_truthy terms = false →
  ∃ self' w,
    Manager.translate_files self files source target key status_callback terms
      seg = (Ret tt, self', [ThreadStart])
    ∧ Manager.db self' = Some d
    ∧ Manager.worker self' = Some w
    ∧ Worker.custom_terms w = terms.
Proof.
  intros Hdir Hne Hdb Hterms. eexists _, _. split.
  { apply (translate_files_started _ directory d d); try done.
    by rewrite Hterms. }
  by split_and!.
Qed.

(** When [stop_translation] is called after [translate_files] has started the
    thread and before the thread runs the worker: the manager signals
    [Deteniendo traducción...], and the run of the worker emits
    [all_translations_completed], once, and nothing else; it reads and writes
    no file, calls neither the translator nor the store. *)
Theorem stop_before_thread_runs (self : Manager.TranslationManager DB)
    files source target key status_callback terms seg self1 env files_on_disk :
  Manager.translate_files self files source target key status_callback terms seg
    = (Ret tt, self1, [ThreadStart]) →
  ∃ w s,
    Manager.worker (Manager.stop_translation self1).1 = Some w
    ∧ Manager.worker_world (Manager.stop_translation self1).1 files_on_disk
      = Some s
    ∧ (Manager.stop_translation self1).2
      = [Emit (progress_updated "Deteniendo traducción...")]
    ∧ (Worker.run w env s).2 = [Emit all_translations_completed]
    ∧ Worker.fs (Worker.run w env s).1.2 = files_on_disk
    ∧ Worker.db (Worker.run w env s).1.2 = Worker.db s.
Proof.
  intros (directory & d & Hdb & Hseg & Hflag & Hworker)%translate_files_thread.
  unfold Manager.stop_translation, Manager.worker_world.
  rewrite Hworker. simpl. rewrite Hdb.
  eexists _, _. split_and!; try done.
  all: rewrite run_unfold; simpl; rewrite loop_stopped; simpl; try done.
  all: by destruct seg.
Qed.

End ManagerFacts.

(** ** The record store of the spec *)

Lemma is_translated_record (d : Store.TranslationDatabase) (record : Store.TranslationRecord) :
  record ∈ Store.records d →
  Store.is_translated d (Store.filename record) = true.
Proof.
  intros Hin. unfold Store.is_translated. apply existsb_exists.
  exists record. split; [by apply list_elem_of_In | apply String.eqb_refl].
Qed.

(** C9.  With the record store of the spec: a file for which a record exists,
    whatever the language pair of the record and whatever the pair of the
    batch, is skipped; the iteration emits the progress message only. *)
Theorem skip_by_filename_only (self : Worker.TranslationWorker) env total_files
    i file_info n (s : Worker.World Store.TranslationDatabase)
    filename recorded_source recorded_target time :
  {| Store.filename := filename; Store.source_lang := recorded_source;
     Store.target_lang := recorded_target; Store.timestamp := time |}
    ∈ Store.records (Worker.db s) →
  Worker._stop_requested s = false →
  stop_called env (Before i) = false →
  file_info !! "name" = Some filename →
  is_file_translated (Worker.db s) filename = Ret true
  ∧ Worker.body self env total_files i file_info n s =
      (Ret (Worker.Next n),
       Worker.set_stop_requested (stop_called env (During i)) s,
       [Emit (progress_updated (Worker.progress_message i total_files filename))]).
Proof.
  intros Hrecord Hflag Hbefore Hname.
  assert (Hdone : is_file_translated (Worker.db s) filename = Ret true).
  { simpl. f_equal. by apply (is_translated_record _ _ Hrecord). }
  split; [done|]. by apply body_already_translated.
Qed.

(** ** The model at concrete batches *)

Lemma triple_eta {A B C : Type} (p : A * B * C) : p = (p.1.1, p.1.2, p.2).
Proof. by destruct p as [[? ?] ?]. Qed.

(** C1.  A batch of one file that is translated, with no stop request and no
    exception: [all_translations_completed] is emitted twice, by line 76 and
    by the [finally] of line 81. *)
Theorem run_emits_completed_twice :
  (Worker.run (Examples.worker ["a.txt"] None) Examples.quiet
     (Examples.world Store.empty)).2
  = [Emit (progress_updated "Traduciendo capítulo 1 de 1: a.txt");
     TranslateText "uno" "es" "en" "key" None None "";
     FsWrite "/novel/.temp_a.txt" "[uno]";
     FsReplace "/novel/.temp_a.txt" "/novel/a.txt";
     Emit (translation_completed "a.txt" true);
     Emit (progress_updated
             "Traducción completada. 1 de 1 archivos traducidos exitosamente.");
     Emit all_translations_completed;
     Emit all_translations_completed]
  ∧ count_completed
      (Worker.run (Examples.worker ["a.txt"] None) Examples.quiet
         (Examples.world Store.empty)).2 = 2.
Proof. split; vm_compute; reflexivity. Qed.

Lemma translate_and_commit_success_witness :
  ∃ text translated,
    Worker.fs (Examples.world Store.empty)
      !! Worker.input_path_of (Examples.worker ["a.txt"] None) "a.txt" = Some text
    ∧ Worker.fs Examples.attempt_a.1.2
      !! Worker.input_path_of (Examples.worker ["a.txt"] None) "a.txt"
      = Some translated
    ∧ Worker.fs Examples.attempt_a.1.2
      !! Worker.temp_output_path_of (Examples.worker ["a.txt"] None) "a.txt" = None.
Proof.
  assert (Hrun : Worker._translate_single_file (Examples.worker ["a.txt"] None)
            (Examples.oracle Examples.bracket_translator) "a.txt"
            (Examples.world Store.empty)
          = (Ret true, Examples.attempt_a.1.2, Examples.attempt_a.2)).
  { vm_compute. reflexivity. }
  destruct (translate_and_commit_success _ _ _ _ _ _ Hrun)
    as (text & translated & Hread & _ & Hfile & Htemp & _).
  exists text, translated. auto.
Defined.

Lemma failed_file_reported_witness :
  ∃ (s1 : Worker.World Store.TranslationDatabase) tr1,
    Worker.body (Examples.worker ["a.txt"; "b.txt"] None) Examples.silent 2 1
      (Examples.file "a.txt") 0 (Examples.world Store.empty)
    = (Ret (Worker.Next 0), s1, tr1)
    ∧ signals tr1 =
        [progress_updated (Worker.progress_message 1 2 "a.txt");
         error_occurred
           ("Error al traducir " +:+ "a.txt" +:+ ": " +:+ "No se obtuvo traducción");
         translation_completed "a.txt" false].
Proof.
  destruct (failed_file_reported (Examples.worker ["a.txt"; "b.txt"] None)
              Examples.silent 2 1 (Examples.file "a.txt") [Examples.file "b.txt"]
              0 (Examples.world Store.empty) "a.txt" "No se obtuvo traducción")
    as (s1 & tr1 & Hbody & Hsignals & _).
  - reflexivity.
  - reflexivity.
  - vm_compute. reflexivity.
  - reflexivity.
  - right. right. exists "uno". split_and!.
    + reflexivity.
    + vm_compute. reflexivity.
    + right. split; [right; reflexivity | reflexivity].
  - exists s1, tr1. split; assumption.
Defined.

Lemma already_translated_skipped_witness :
  ∃ s1 : Worker.World Store.TranslationDatabase,
    Worker.body (Examples.worker ["a.txt"; "b.txt"] None) Examples.quiet 2 1
      (Examples.file "a.txt") 0 (Examples.world Examples.a_done)
    = (Ret (Worker.Next 0), s1,
       [Emit (progress_updated (Worker.progress_message 1 2 "a.txt"))]).
Proof.
  destruct (already_translated_skipped (Examples.worker ["a.txt"; "b.txt"] None)
              Examples.quiet 2 1 (Examples.file "a.txt") [Examples.file "b.txt"]
              0 (Examples.world Examples.a_done) "a.txt")
    as (s1 & Hbody & _).
  - reflexivity.
  - reflexivity.
  - vm_compute. reflexivity.
  - reflexivity.
  - exists s1. assumption.
Defined.

Lemma skip_by_filename_only_witness :
  Worker.body (Examples.worker ["a.txt"; "b.txt"] None) Examples.quiet 2 1
    (Examples.file "a.txt") 0 (Examples.world Examples.a_done)
  = (Ret (Worker.Next 0),
     Worker.set_stop_requested false (Examples.world Examples.a_done),
     [Emit (progress_updated (Worker.progress_message 1 2 "a.txt"))]).
Proof.
  refine (proj2 (skip_by_filename_only (Examples.worker ["a.txt"; "b.txt"] None)
                   Examples.quiet 2 1 (Examples.file "a.txt") 0
                   (Examples.world Examples.a_done) "a.txt" "en" "fr" 0 _ _ _ _)).
  - apply list_elem_of_here.
  - reflexivity.
  - reflexivity.
  - vm_compute. reflexivity.
Defined.

Lemma stop_before_file_witness :
  count_completed Examples.stopped_run.2 = 1
  ∧ ∀ a b, Emit (progress_updated (Worker.final_message a b)) ∉ Examples.stopped_run.2.
Proof.
  destruct (stop_before_file (Examples.worker ["a.txt"; "b.txt"] None)
              Examples.stop_during_1 (Examples.world Store.empty) 2
              Examples.stopped_run.1.1 Examples.stopped_run.1.2
              Examples.stopped_run.2)
    as (_ & Hfinal & Hcount & _).
  - simpl. lia.
  - right. exists 1. split; [lia|]. right. split; [lia | reflexivity].
  - apply triple_eta.
  - split; assumption.
Defined.

Lemma pause_after_attempt_only_witness :
  ∃ tr0, Examples.first_of_two.2 = tr0 ++ [Sleep 5]
         ∧ Forall (λ e, is_sleep e = false) tr0.
Proof.
  refine (proj1 (pause_after_attempt_only
                   (Examples.worker ["a.txt"; "b.txt"] None) Examples.quiet 2 1
                   (Examples.file "a.txt") 0 (Examples.world Store.empty) "a.txt"
                   1 Examples.first_of_two.1.2 Examples.first_of_two.2
                   _ _ _ _ _ _) _).
  - reflexivity.
  - reflexivity.
  - vm_compute. reflexivity.
  - vm_compute. reflexivity.
  - lia.
  - vm_compute. reflexivity.
  - reflexivity.
Defined.

Lemma empty_batch_witness :
  Worker.run (Examples.worker [] None) Examples.quiet (Examples.world Store.empty)
  = (Ret tt, Examples.world Store.empty,
     [Emit (progress_updated
              "Traducción completada. 0 de 0 archivos traducidos exitosamente.");
      Emit all_translations_completed;
      Emit all_translations_completed]).
Proof.
  refine (proj1 (empty_batch (Examples.worker [] None) Examples.quiet
                   (Examples.world Store.empty) _ _ _));
    reflexivity.
Defined.

Lemma translate_files_before_initialize_witness :
  Manager.translate_files (DB := Store.TranslationDatabase) Manager.__init__
    [Examples.file "a.txt"] "es" "en" "key" false "" None
  = (Ret tt, Manager.__init__,
     [Emit (error_occurred "No se ha inicializado el directorio de trabajo")]).
Proof.
  apply translate_files_before_initialize; reflexivity.
Defined.

(** C3, as the claim has it, fails for a translator call that raises what is
    no [Exception]: in the batch of two with a translator that raises
    [SystemExit], [a.txt] is there, not recorded and no stop is requested;
    [except Exception] of line 115 does not catch what the call raises, so
    neither an error nor [FileCompleted] is signalled for [a.txt];
    [except Exception] of line 78 does not catch it either, so it leaves [run]
    after the [finally], and [b.txt] is never reached. *)
Lemma translator_base_exception_counterexample :
  is_file_translated Store.empty "a.txt" = Ret false
  ∧ translator_outcome (Examples.worker ["a.txt"; "b.txt"] None)
      (io Examples.exiting 1) (Examples.world Store.empty) "uno" = TAbort "1"
  ∧ Examples.exited_run
    = (Abort "1", Examples.world Store.empty,
       [Emit (progress_updated "Traduciendo capítulo 1 de 2: a.txt");
        TranslateText "uno" "es" "en" "key" None None "";
        Emit all_translations_completed])
  ∧ signals Examples.exited_run.2 =
      [progress_updated "Traduciendo capítulo 1 de 2: a.txt";
       all_translations_completed].
Proof. split_and!; vm_compute; reflexivity. Qed.

(** C6, as the claim has it, fails: in the batch of two with [a.txt] already
    recorded, file 1 is skipped, is not the last, no stop is requested, the
    run goes on to file 2, and the whole run takes no pause. *)
Lemma pause_after_skipped_file_counterexample :
  is_file_translated Examples.a_done "a.txt" = Ret true
  ∧ length (Worker.files_to_translate (Examples.worker ["a.txt"; "b.txt"] None)) = 2
  ∧ Worker._stop_requested Examples.resumed_run.1.2 = false
  ∧ signals Examples.resumed_run.2 =
      [progress_updated "Traduciendo capítulo 1 de 2: a.txt";
       progress_updated "Traduciendo capítulo 2 de 2: b.txt";
       translation_completed "b.txt" true;
       progress_updated
         "Traducción completada. 1 de 2 archivos traducidos exitosamente.";
       all_translations_completed;
       all_translations_completed]
  ∧ existsb is_sleep Examples.resumed_run.2 = false.
Proof. split_and!; vm_compute; reflexivity. Qed.

(** C7, as the claim has it, fails: constructing a worker with no override
    ([segment_size] is [None]) on a translator set to 5000 resets the
    translator's setting to [None]. *)
Lemma init_resets_segment_size_counterexample :
  Worker.translator_segment_size Examples.world_5000 = Some 5000%Z
  ∧ Worker.translator_segment_size
      (Worker.__init__ [Examples.file "a.txt"] "/novel" "es" "en" "key" None None
         "" None Examples.world_5000).1.2
    ≠ Worker.translator_segment_size Examples.world_5000.
Proof. split; [reflexivity | discriminate]. Qed.

(** ** Further properties, at concrete batches *)

Lemma no_temporary_file_left_witness :
  Worker.fs
    (Worker._translate_single_file (Examples.worker ["a.txt"] None)
       Examples.disk_full "a.txt" (Examples.world Store.empty)).1.2
    !! Worker.temp_output_path_of (Examples.worker ["a.txt"] None) "a.txt"
  = None.
Proof.
  apply no_temporary_file_left.
  - reflexivity.
  - vm_compute. reflexivity.
Defined.

Lemma commit_failure_reported_witness :
  ∃ (s' : Worker.World Store.TranslationDatabase) tr,
    Worker._translate_single_file (Examples.worker ["a.txt"] None)
      Examples.disk_full "a.txt" (Examples.world Store.empty)
    = (Ret false, s', tr)
    ∧ signals tr =
        [error_occurred
           ("Error al traducir " +:+ "a.txt" +:+ ": "
              +:+ "[Errno 28] No space left on device")]
    ∧ Worker.fs s' !! Worker.input_path_of (Examples.worker ["a.txt"] None) "a.txt"
      = Some "uno".
Proof.
  destruct (commit_failure_reported (Examples.worker ["a.txt"] None)
              Examples.disk_full "a.txt" (Examples.world Store.empty)
              "uno" "[uno]" "[Errno 28] No space left on device")
    as (s' & tr & Hrun & Hsignals & Hfile & _).
  - reflexivity.
  - vm_compute. reflexivity.
  - vm_compute. reflexivity.
  - discriminate.
  - left. exists (Some "[u"). reflexivity.
  - exists s', tr. split_and!; assumption.
Defined.

Lemma stale_temporary_file_removed_witness :
  ∃ (s' : Worker.World Store.TranslationDatabase) tr,
    Worker._translate_single_file (Examples.worker ["c.txt"] None)
      (Examples.oracle Examples.bracket_translator) "c.txt" Examples.stale_world
    = (Ret false, s', tr)
    ∧ Worker.fs s'
        !! Worker.temp_output_path_of (Examples.worker ["c.txt"] None) "c.txt"
      = None.
Proof.
  destruct (stale_temporary_file_removed (Examples.worker ["c.txt"] None)
              (Examples.oracle Examples.bracket_translator) "c.txt"
              Examples.stale_world "viejo")
    as (s' & tr & Hrun & _ & Hgone).
  - right. vm_compute. reflexivity.
  - vm_compute. reflexivity.
  - reflexivity.
  - exists s', tr. split; assumption.
Defined.

Lemma summary_counts_successes_witness :
  ∃ tr0,
    (Worker.run (Examples.worker ["a.txt"; "b.txt"] None) Examples.quiet
       (Examples.world Examples.a_done)).2
    = tr0 ++ [Emit (progress_updated
                      (Worker.final_message (count_success tr0) 2));
              Emit all_translations_completed;
              Emit all_translations_completed].
Proof.
  destruct (summary_counts_successes (Examples.worker ["a.txt"; "b.txt"] None)
              Examples.quiet (Examples.world Examples.a_done))
    as (tr0 & Hrun & _).
  - vm_compute. reflexivity.
  - exists tr0. exact Hrun.
Defined.

Lemma run_touches_batch_files_only_witness :
  Worker.fs
    (Worker.run (Examples.worker ["a.txt"] None) Examples.quiet
       (Examples.world Store.empty)).1.2 !! "/novel/b.txt"
  = Some "dos".
Proof.
  rewrite (run_touches_batch_files_only (Examples.worker ["a.txt"] None)
             Examples.quiet (Examples.world Store.empty) "/novel/b.txt").
  - vm_compute. reflexivity.
  - intros (file_info & filename & Hin & Hname & Hpath).
    apply list_elem_of_singleton in Hin. subst file_info.
    vm_compute in Hname. injection Hname as <-.
    vm_compute in Hpath. destruct Hpath; discriminate.
Defined.

Lemma missing_name_aborts_witness :
  Worker.run Examples.nameless_worker Examples.quiet (Examples.world Store.empty)
  = (Ret tt, Examples.nameless_prefix.1.2,
     Examples.nameless_prefix.2
       ++ [Emit (error_occurred "Error en el proceso de traducción: 'name'");
           Emit all_translations_completed]).
Proof.
  apply (missing_name_aborts Examples.nameless_worker Examples.quiet
           (Examples.world Store.empty) [Examples.file "a.txt"] ∅ [] 1).
  - reflexivity.
  - vm_compute. reflexivity.
  - vm_compute. reflexivity.
  - reflexivity.
  - reflexivity.
Defined.

Lemma run_catches_exceptions_witness :
  (Worker.run (Examples.worker ["a.txt"; "b.txt"] None) Examples.quiet
     (Examples.world Store.empty)).1.1 = Ret tt.
Proof.
  apply (run_catches_exceptions (Examples.worker ["a.txt"; "b.txt"] None)
           Examples.quiet (Examples.world Store.empty)).
  split_and!; intros; discriminate.
Defined.

Lemma body_raises_only_outside_attempt_witness :
  ((∅ : gmap string string) !! "name" = None ∧ "'name'" = "'name'")
  ∨ ∃ filename,
      (∅ : gmap string string) !! "name" = Some filename
      ∧ (is_file_translated Store.empty filename = Raise "'name'"
         ∨ (is_file_translated Store.empty filename = Ret false
            ∧ add_translation_record Store.empty filename "es" "en"
              = Raise "'name'")).
Proof.
  apply (proj1 (body_raises_only_outside_attempt Examples.nameless_worker
                  Examples.quiet 2 2 ∅ 1 (Examples.world Store.empty) "'name'"
                  (Examples.world Store.empty) [])).
  vm_compute. reflexivity.
Defined.

Lemma record_failure_after_commit_witness :
  ∃ translated,
    Worker.body (H := Examples.read_only_store) (Examples.worker ["a.txt"] None)
      Examples.quiet 1 1 (Examples.file "a.txt") 0 (Examples.world Store.empty)
    = (Raise "attempt to write a readonly database", Examples.attempt_a.1.2,
       Emit (progress_updated (Worker.progress_message 1 1 "a.txt"))
         :: Examples.attempt_a.2)
    ∧ Worker.fs Examples.attempt_a.1.2
        !! Worker.input_path_of (Examples.worker ["a.txt"] None) "a.txt"
      = Some translated.
Proof.
  destruct (record_failure_after_commit (H := Examples.read_only_store)
              (Examples.worker ["a.txt"] None) Examples.quiet 1 1
              (Examples.file "a.txt") 0 (Examples.world Store.empty) "a.txt"
              Examples.attempt_a.1.2 Examples.attempt_a.2
              "attempt to write a readonly database")
    as (translated & Hbody & Hfile & _).
  - reflexivity.
  - reflexivity.
  - vm_compute. reflexivity.
  - reflexivity.
  - vm_compute. reflexivity.
  - reflexivity.
  - exists translated. split; assumption.
Defined.

Lemma successful_file_recorded_witness :
  ∃ (s2 : Worker.World Store.TranslationDatabase) tr,
    Worker.body (Examples.worker ["a.txt"] None) Examples.quiet 1 1
      (Examples.file "a.txt") 0 (Examples.world Store.empty)
    = (Ret (Worker.Next 1), s2, tr)
    ∧ Worker.db s2 = Store.add_record Store.empty "a.txt" "es" "en"
    ∧ signals tr =
        [progress_updated (Worker.progress_message 1 1 "a.txt");
         translation_completed "a.txt" true].
Proof.
  destruct (successful_file_recorded (Examples.worker ["a.txt"] None)
              Examples.quiet 1 1 (Examples.file "a.txt") 0
              (Examples.world Store.empty) "a.txt"
              Examples.attempt_a.1.2 Examples.attempt_a.2
              (Store.add_record Store.empty "a.txt" "es" "en"))
    as (s2 & tr & translated & Hbody & Hdb & _ & _ & Hsignals).
  - reflexivity.
  - reflexivity.
  - vm_compute. reflexivity.
  - reflexivity.
  - vm_compute. reflexivity.
  - reflexivity.
  - exists s2, tr. split_and!; assumption.
Defined.

Lemma failed_first_initialize_not_initialized_witness :
  Manager.translate_files (DB := Store.TranslationDatabase)
    (Manager.initialize Manager.__init__ "/novel" (Some "gemini") (Some "flash")
       (Raise "unable to open database file")).2
    [Examples.file "a.txt"] "es" "en" "key" false "" None
  = (Ret tt,
     (Manager.initialize Manager.__init__ "/novel" (Some "gemini") (Some "flash")
        (Raise "unable to open database file")).2,
     [Emit (error_occurred "No se ha inicializado el directorio de trabajo")]).
Proof.
  refine (proj2 (proj2 (failed_first_initialize_not_initialized
                          (DB := Store.TranslationDatabase) Manager.__init__
                          "/novel" (Some "gemini") (Some "flash")
                          "unable to open database file"
                          [Examples.file "a.txt"] "es" "en" "key" false ""
                          None _))).
  reflexivity.
Defined.

Lemma failed_initialize_keeps_old_store_witness :
  ∃ self' w,
    Manager.translate_files
      (Manager.initialize Examples.bound_manager "/other" None None
         (Raise "unable to open database file")).2
      [Examples.file "a.txt"] "es" "en" "key" false "" None
    = (Ret tt, self', [ThreadStart])
    ∧ Manager.worker self' = Some w
    ∧ Worker.working_directory w = "/other"
    ∧ Worker.provider w = Some "gemini".
Proof.
  destruct (failed_initialize_keeps_old_store Examples.bound_manager "/other"
              None None "unable to open database file" Store.empty
              [Examples.file "a.txt"] "es" "en" "key" false None)
    as (_ & self' & w & Hstart & Hworker & Hdir & Hprov & _).
  - reflexivity.
  - discriminate.
  - exists self', w. split_and!; assumption.
Defined.

Lemma save_terms_failure_starts_nothing_witness :
  ∃ self',
    Manager.translate_files (H := Examples.read_only_store)
      Examples.bound_manager [Examples.file "a.txt"] "es" "en" "key" false
      "Qi = Qi" None
    = (Raise "attempt to write a readonly database", self', [])
    ∧ Manager.worker self' = None.
Proof.
  destruct (save_terms_failure_starts_nothing (H := Examples.read_only_store)
              Examples.bound_manager "/novel" Store.empty
              [Examples.file "a.txt"] "es" "en" "key" false "Qi = Qi" None
              "attempt to write a readonly database")
    as (self' & Hraise & Hworker & _).
  - reflexivity.
  - discriminate.
  - reflexivity.
  - reflexivity.
  - reflexivity.
  - reflexivity.
  - exists self'. split; assumption.
Defined.

Lemma blank_terms_not_saved_witness :
  ∃ self' w,
    Manager.translate_files (H := Examples.read_only_store)
      Examples.bound_manager [Examples.file "a.txt"] "es" "en" "key" false
      Examples.blank_terms None
    = (Ret tt, self', [ThreadStart])
    ∧ Manager.db self' = Some Store.empty
    ∧ Manager.worker self' = Some w
    ∧ Worker.custom_terms w = Examples.blank_terms.
Proof.
  apply (blank_terms_not_saved (H := Examples.read_only_store)
           Examples.bound_manager "/novel" Store.empty).
  - reflexivity.
  - discriminate.
  - reflexivity.
  - reflexivity.
Defined.

Lemma stop_before_thread_runs_witness :
  ∃ w (s : Worker.World Store.TranslationDatabase),
    Manager.worker_world
      (Manager.stop_translation
         (Manager.translate_files Examples.bound_manager
            [Examples.file "a.txt"; Examples.file "b.txt"] "es" "en" "key"
            false "" None).1.2).1
      Examples.directory = Some s
    ∧ (Worker.run w Examples.quiet s).2 = [Emit all_translations_completed]
    ∧ Worker.fs (Worker.run w Examples.quiet s).1.2 = Examples.directory.
Proof.
  destruct (stop_before_thread_runs Examples.bound_manager
              [Examples.file "a.txt"; Examples.file "b.txt"] "es" "en" "key"
              false "" None
              (Manager.translate_files Examples.bound_manager
                 [Examples.file "a.txt"; Examples.file "b.txt"] "es" "en" "key"
                 false "" None).1.2
              Examples.quiet Examples.directory)
    as (w & s & _ & Hworld & _ & Hrun & Hfs & _).
  - reflexivity.
  - exists w, s. split_and!; assumption.
Defined.

(** The record store of the spec keeps its records. *)
Lemma list_store_keeps_records :
  store_keeps_records (DB := Store.TranslationDatabase).
Proof.
  split.
  - intros d d' name source target [= <-]. simpl. f_equal.
    unfold Store.is_translated, Store.add_record. simpl.
    rewrite existsb_app. simpl. rewrite String.eqb_refl.
    by rewrite orb_true_r.
  - intros d d' name source target other [= <-] [= Hother]. simpl. f_equal.
    unfold Store.is_translated, Store.add_record in *. simpl.
    by rewrite existsb_app, Hother.
Qed.

Lemma translated_file_never_attempted_again_witness :
  is_file_translated
    (Worker.db (Worker.run (Examples.worker ["a.txt"] None) Examples.quiet
                  (Examples.world Store.empty)).1.2) "a.txt" = Ret true
  ∧ ∀ ok,
      Emit (translation_completed "a.txt" ok)
      ∉ (Worker.run (Examples.worker ["a.txt"; "b.txt"] None) Examples.quiet
           (Worker.run (Examples.worker ["a.txt"] None) Examples.quiet
              (Examples.world Store.empty)).1.2).2.
Proof.
  destruct (translated_file_never_attempted_again
              (Examples.worker ["a.txt"] None) Examples.quiet
              (Examples.world Store.empty) "a.txt" list_store_keeps_records)
    as [Hdone Hlater].
  - apply (list_elem_of_lookup_2 _ 4). vm_compute. reflexivity.
  - split; [exact Hdone|]. intros ok. apply Hlater. reflexivity.
Defined.

Lemma stop_does_not_interrupt_file_witness :
  (Worker.body (Examples.worker ["a.txt"; "b.txt"] None) Examples.stop_during_1
     2 1 (Examples.file "a.txt") 0 (Examples.world Store.empty)).1.1
  = (Worker.body (Examples.worker ["a.txt"; "b.txt"] None)
       (no_stops Examples.stop_during_1) 2 1 (Examples.file "a.txt") 0
       (Examples.world Store.empty)).1.1
  ∧ count_sleeps
      (Worker.body (Examples.worker ["a.txt"; "b.txt"] None)
         Examples.stop_during_1 2 1 (Examples.file "a.txt") 0
         (Examples.world Store.empty)).2 = 0.
Proof.
  destruct (stop_does_not_interrupt_file
              (Examples.worker ["a.txt"; "b.txt"] None) Examples.stop_during_1
              2 1 (Examples.file "a.txt") 0 (Examples.world Store.empty))
    as (Hresult & _ & _ & _ & Hsleeps).
  - reflexivity.
  - reflexivity.
  - split; [exact Hresult | apply Hsleeps; reflexivity].
Defined.
